(** * BerllogApp: image-URL resolution, retry hooks, theme toggle, fetches

    A shallow embedding of the client logic of the BerllogApp screens:
    the per-file copies of [getImageUrl], the [useImageWithFallback]
    hooks with their retry cursor, the theme toggle, the writes to the
    key-value store, the screen fetches and the client-side sorts.

    Paths, URLs and keys are modelled by [string], one [ascii] per code
    unit; display names, which may hold any character, by the list of
    their UTF-16 code units. Values that may be [null] or [undefined]
    are [option]s. *)

From Stdlib Require Import ZArith Lia Ascii String Sorted Permutation.
From Stdlib Require Import DecimalString.
From stdpp Require Import gmap strings list.

Local Open Scope nat_scope.

(** ** String primitives of the host language *)

(** [!!v] for a value that is a string, [null] or [undefined]. *)
Definition truthy (v : option string) : bool :=
  match v with
  | Some (String _ _) => true
  | _ => false
  end.

(** [v || d] for a value that is a string, [null] or [undefined]. *)
Definition or_else (v : option string) (d : string) : string :=
  match v with
  | Some (String _ _ as s) => s
  | _ => d
  end.

(** [s.startsWith(p)] *)
Fixpoint startsWith (s p : string) {struct p} : bool :=
  match p, s with
  | "", _ => true
  | String a p', String b s' => if decide (a = b) then startsWith s' p' else false
  | String _ _, "" => false
  end.

(** [s.includes(sub)] *)
Fixpoint includes (s sub : string) : bool :=
  startsWith s sub ||
  match s with
  | "" => false
  | String _ s' => includes s' sub
  end.

(** [s.substring(n)] *)
Fixpoint drop_chars (n : nat) (s : string) : string :=
  match n, s with
  | S n', String _ s' => drop_chars n' s'
  | _, _ => s
  end.

(** [s.replace(pat, rep)] with a string pattern: the first occurrence only. *)
Fixpoint replace (pat rep s : string) : string :=
  if startsWith s pat then rep +:+ drop_chars (String.length pat) s
  else match s with
       | "" => ""
       | String c s' => String c (replace pat rep s')
       end.

(** [s.replace(/^\/+/g, '')] and [s.replace(/^\/+/, '')]: the pattern is
    anchored at the start, so with or without the [g] flag it removes the
    leading run of slashes. *)
Fixpoint strip_leading_slashes (s : string) : string :=
  match s with
  | String c s' => if decide (c = "/"%char) then strip_leading_slashes s' else s
  | "" => ""
  end.

(** [s.split(sep)] for a one-character separator. *)
Fixpoint split (sep : ascii) (s : string) : list string :=
  match s with
  | "" => [""]
  | String c s' =>
      if decide (c = sep) then "" :: split sep s'
      else match split sep s' with
           | h :: t => String c h :: t
           | [] => [String c ""]
           end
  end.

(** Case folding of the regular expression flag [i] on the letters of the
    pattern [https?]: only the ASCII letters fold onto each other. *)
Definition lower (c : ascii) : ascii :=
  let n := nat_of_ascii c in
  if (65 <=? n) && (n <=? 90) then ascii_of_nat (n + 32) else c.

Fixpoint to_lower (s : string) : string :=
  match s with
  | "" => ""
  | String c s' => String (lower c) (to_lower s')
  end.

Fixpoint istartsWith (s p : string) {struct p} : bool :=
  match p, s with
  | "", _ => true
  | String a p', String b s' =>
      if decide (lower a = lower b) then istartsWith s' p' else false
  | String _ _, "" => false
  end.

(** [/^https?:\/\//i.test(s)] *)
Definition test_http (s : string) : bool :=
  istartsWith s "http://" || istartsWith s "https://".

(** [s.trim()]: white space and line terminators among the code units
    of the model are removed at both ends. *)
Definition is_white (c : ascii) : bool :=
  let n := nat_of_ascii c in
  ((9 <=? n) && (n <=? 13)) || (n =? 32) || (n =? 160).

Fixpoint trim_start (s : string) : string :=
  match s with
  | String c s' => if is_white c then trim_start s' else s
  | "" => ""
  end.

Fixpoint trim_end (s : string) : string :=
  match s with
  | "" => ""
  | String c s' =>
      match trim_end s' with
      | "" => if is_white c then "" else String c ""
      | r => String c r
      end
  end.

Definition trim (s : string) : string := trim_end (trim_start s).

(** ** Display names

    A display name is a sequence of UTF-16 code units, numbers below
    65536. A character outside the Basic Multilingual Plane takes two
    of them, a high surrogate followed by a low one. *)
Definition text := list N.

(** The text with the code units of an 8-bit string. *)
Definition units (s : string) : text :=
  map N_of_ascii (list_ascii_of_string s).

(** [!!v] and [v || d] for a value that is a text, [null] or
    [undefined]. *)
Definition truthy_text (v : option text) : bool :=
  match v with
  | Some (_ :: _) => true
  | _ => false
  end.

Definition text_or (v : option text) (d : text) : text :=
  match v with
  | Some ((_ :: _) as s) => s
  | _ => d
  end.

Definition high_surrogate (u : N) : bool := ((55296 <=? u) && (u <=? 56319))%N.
Definition low_surrogate (u : N) : bool := ((56320 <=? u) && (u <=? 57343))%N.

(** [c.toUpperCase()] for a text [c] of the one code unit [u]. The
    letters of ASCII and of Latin-1 are written out: [a] to [z] and the
    letters from U+00E0 to U+00FE lose 32, the sharp s becomes [SS], the
    micro sign and the y with diaeresis leave Latin-1. A surrogate on
    its own has no upper case. For the other code units the upper case
    is read from [caseTable], the case table of the host. *)
Definition upper_unit (caseTable : N -> text) (u : N) : text :=
  (if (97 <=? u) && (u <=? 122) then [u - 32]
   else if u <? 128 then [u]
   else if u =? 181 then [924]
   else if u =? 223 then [83; 83]
   else if (224 <=? u) && (u <=? 254) && negb (u =? 247) then [u - 32]
   else if u =? 255 then [376]
   else if u <? 256 then [u]
   else if high_surrogate u || low_surrogate u then [u]
   else caseTable u)%N.

(** [s.charAt(0).toUpperCase()] *)
Definition upperInitial (caseTable : N -> text) (s : text) : text :=
  match s with
  | [] => []
  | u :: _ => upper_unit caseTable u
  end.

(** [encodeURIComponent(s)]: the unreserved characters are kept, every
    other character is written as the percent-escapes of its UTF-8
    bytes, a surrogate pair as the four bytes of its character. A
    surrogate without its partner makes the call throw a [URIError]:
    the result is [None]. *)
Definition unreserved (u : N) : bool :=
  ((65 <=? u) && (u <=? 90) || (97 <=? u) && (u <=? 122) ||
   (48 <=? u) && (u <=? 57))%N || existsb (N.eqb u) (units "-_.!~*'()").

Definition hex_digit (n : N) : ascii :=
  nth (N.to_nat n) (list_ascii_of_string "0123456789ABCDEF") "0"%char.

Definition percent (n : N) : string :=
  String "%" (String (hex_digit (n / 16)) (String (hex_digit (n mod 16)) "")).

Fixpoint encodeURIComponent (s : text) : option string :=
  match s with
  | [] => Some ""
  | u :: rest =>
      if (u <? 128)%N then
        String.append
          (if unreserved u then String (ascii_of_N u) "" else percent u)
          <$> encodeURIComponent rest
      else if (u <? 2048)%N then
        String.append (percent (192 + u / 64) +:+ percent (128 + u mod 64))
          <$> encodeURIComponent rest
      else if high_surrogate u then
        match rest with
        | l :: rest' =>
            if low_surrogate l then
              let cp := (65536 + (u - 55296) * 1024 + (l - 56320))%N in
              String.append
                (percent (240 + cp / 262144) +:+
                 percent (128 + (cp / 4096) mod 64) +:+
                 percent (128 + (cp / 64) mod 64) +:+
                 percent (128 + cp mod 64))
                <$> encodeURIComponent rest'
            else None
        | [] => None
        end
      else if low_surrogate u then None
      else
        String.append
          (percent (224 + u / 4096) +:+ percent (128 + (u / 64) mod 64) +:+
           percent (128 + u mod 64))
          <$> encodeURIComponent rest
  end.

(** ** Replies of the HTTP client and values read from JSON *)

(** What [await axios.get(...)] gives: the response data, or the error
    thrown into the [catch] block. *)
Inductive http (A : Type) : Type :=
  | Ok (data : A)
  | Failed (err : string).
Arguments Ok {A} data.
Arguments Failed {A} err.

(** A JSON field expected to hold an array. *)
Inductive jsfield (A : Type) : Type :=
  | Falsy
  | NotArray
  | Arr (items : list A).
Arguments Falsy {A}.
Arguments NotArray {A}.
Arguments Arr {A} items.

(** [Array.isArray(x || []) ? x : []] *)
Definition array_or_empty {A} (x : jsfield A) : list A :=
  match x with
  | Arr items => items
  | _ => []
  end.

(** ** State of the [useImageWithFallback] hook

    [imageSource] is the [uri] of the source object ([None] for a [null]
    source), [retryCount] the value of the [retryCount] ref. *)
Record hook := Hook {
  imageSource : option string;
  imageError : bool;
  retryCount : nat
}.

(** The initials-avatar URL built by [useFallbackAvatar]. *)
Definition avatarServiceUrl (name : string) : string :=
  "https://ui-avatars.com/api/?name=" +:+ name +:+
  "&background=random&color=fff&size=100".

(** ** The three copies of [getImageUrl] and of the hook *)

(** The post-details screen ([src/unnamed/part_001]). *)
Module PostDetails.

Definition STORAGE_PATHS : list string := ["/storage/"; "/"; "/public/storage/"].

Definition getImageUrl (imagePath : option string) (apiBase : string)
    (isUserAvatar : bool) : option string :=
  match imagePath with
  | None | Some "" => None
  | Some imagePath =>
      if test_http imagePath then Some imagePath
      else
        let cleaned := strip_leading_slashes imagePath in
        if isUserAvatar || startsWith cleaned "avatar/" then
          if negb (includes cleaned "/") then
            Some (apiBase +:+ "/api/users/" +:+ cleaned +:+ "/avatar")
          else Some (apiBase +:+ "/storage/" +:+ cleaned)
        else if startsWith cleaned "storage/garbage_post_images/" then
          Some (apiBase +:+ "/" +:+ cleaned)
        else if startsWith cleaned "garbage_post_images/" then
          Some (apiBase +:+ "/storage/" +:+ cleaned)
        else Some (apiBase +:+ "/storage/" +:+ cleaned)
  end.

Section useImageWithFallback.
(** The case table of the host, [API_CONFIG.BASE_URL], then the
    arguments of the hook. *)
Variable caseTable : N -> text.
Variable BASE_URL : string.
Variable initialImagePath : option string.
Variable userName : option text.
Variable isUserAvatar : bool.

Definition maxRetries : nat := length STORAGE_PATHS.

(** [(userName || 'U').charAt(0).toUpperCase()], computed at each
    render. *)
Definition initialChar : text :=
  upperInitial caseTable (text_or userName (units "U")).

Definition getInitial : text :=
  if negb (truthy_text userName) then units "U"
  else upperInitial caseTable (text_or userName (units "U")).

(** [useFallbackAvatar] throws when [encodeURIComponent] does. *)
Definition useFallbackAvatar (st : hook) : option hook :=
  match encodeURIComponent getInitial with
  | Some initial =>
      Some {| imageSource := Some (avatarServiceUrl initial);
              imageError := true;
              retryCount := retryCount st |}
  | None => None
  end.

(** The first render: [initialFallback] is built before the lazy
    initial state, so the render throws when [encodeURIComponent]
    does. *)
Definition initial : option hook :=
  match encodeURIComponent initialChar with
  | Some fallback =>
      Some {| imageSource :=
                if truthy initialImagePath
                then getImageUrl initialImagePath BASE_URL isUserAvatar
                else Some (avatarServiceUrl fallback);
              imageError := false;
              retryCount := 0 |}
  | None => None
  end.

(** The effect that resets and initialises image loading. *)
Definition effect (st : hook) : option hook :=
  if truthy initialImagePath then
    Some {| imageSource := getImageUrl initialImagePath BASE_URL isUserAvatar;
            imageError := false;
            retryCount := 0 |}
  else useFallbackAvatar st.

Definition handleImageError (st : hook) : option hook :=
  if (retryCount st <? maxRetries) && truthy initialImagePath then
    let pathIndex := retryCount st in
    let cleaned := strip_leading_slashes (default "" initialImagePath) in
    if pathIndex <? length STORAGE_PATHS then
      let storagePath := nth pathIndex STORAGE_PATHS "" in
      let retryUrl :=
        if isUserAvatar then
          if pathIndex =? 0 then
            BASE_URL +:+ "/storage/avatar/" +:+ replace "avatar/" "" cleaned
          else if pathIndex =? 1 then
            BASE_URL +:+ "/api/users/" +:+
              hd "" (split "/" (replace "avatar/" "" cleaned)) +:+ "/avatar"
          else BASE_URL +:+ storagePath +:+ cleaned
        else BASE_URL +:+ storagePath +:+ cleaned in
      Some {| imageSource := Some retryUrl;
              imageError := imageError st;
              retryCount := pathIndex + 1 |}
    else useFallbackAvatar
           {| imageSource := imageSource st;
              imageError := imageError st;
              retryCount := pathIndex + 1 |}
  else useFallbackAvatar st.

(** The hook after mounting: the first render, then the effect. *)
Definition mounted : option hook := initial ≫= effect.

(** The hook after [n] reported load failures; [None] when the render
    or one of the handlers has thrown. *)
Definition failures (n : nat) : option hook :=
  Nat.iter n (fun st => st ≫= handleImageError) mounted.

End useImageWithFallback.

(** The post-details screen and its fetch. *)
Section PostDetailsScreen.
(** The type of the post objects of the API and their [id] field. *)
Variable post_data : Type.
Variable id : post_data -> option string.

Record screen := Screen {
  post : option post_data;
  loading : bool;
  refreshing : bool;
  isFavorited : bool;
  console : list string
}.

(** The three places where the response may carry the post:
    [res.data?.garbagePost], [res.data?.data] and [res.data]. *)
Record response := Response {
  garbagePost : option post_data;
  data : option post_data;
  whole : option post_data
}.

Definition set_post (p : option post_data) (st : screen) : screen :=
  {| post := p; loading := loading st; refreshing := refreshing st;
     isFavorited := isFavorited st; console := console st |}.
Definition set_loading (b : bool) (st : screen) : screen :=
  {| post := post st; loading := b; refreshing := refreshing st;
     isFavorited := isFavorited st; console := console st |}.
Definition set_refreshing (b : bool) (st : screen) : screen :=
  {| post := post st; loading := loading st; refreshing := b;
     isFavorited := isFavorited st; console := console st |}.
Definition set_isFavorited (b : bool) (st : screen) : screen :=
  {| post := post st; loading := loading st; refreshing := refreshing st;
     isFavorited := b; console := console st |}.
Definition console_log (line : string) (st : screen) : screen :=
  {| post := post st; loading := loading st; refreshing := refreshing st;
     isFavorited := isFavorited st; console := console st ++ [line] |}.

(** [favorites] holds [String(favId)] of each favorite of the reply. *)
Definition fetchPostDetails (postId token : option string)
    (reply : http response) (favorites : http (list string))
    (st : screen) : screen :=
  if negb (truthy postId) then
    set_refreshing false (set_loading false (set_post None
      (console_log "PostDetailsScreen: No postId provided" st)))
  else
    let normalizedId := trim (or_else postId "") in
    if negb (truthy (Some normalizedId))
       || bool_decide (normalizedId = "undefined")
       || bool_decide (normalizedId = "null") then
      set_refreshing false (set_loading false (set_post None
        (console_log "PostDetailsScreen: Invalid postId format" st)))
    else
      let st := set_loading true st in
      let st :=
        match reply with
        | Ok res =>
            let postData :=
              match garbagePost res, data res with
              | Some p, _ => Some p
              | None, Some p => Some p
              | None, None => whole res
              end in
            match postData with
            | Some p =>
                if truthy (id p) then
                  let st := set_post (Some p) st in
                  if truthy token then
                    match favorites with
                    | Ok favs =>
                        set_isFavorited
                          (existsb (fun favId =>
                             bool_decide (favId = or_else postId "")) favs) st
                    | Failed err =>
                        console_log
                          ("Failed to check favorite status " +:+ err) st
                    end
                  else st
                else
                  set_refreshing false (set_loading false (set_post None
                    (console_log
                       "PostDetailsScreen: Invalid post data received" st)))
            | None =>
                set_refreshing false (set_loading false (set_post None
                  (console_log
                     "PostDetailsScreen: Invalid post data received" st)))
            end
        | Failed err =>
            (* Set post to null on error to show error state *)
            set_post None
              (console_log
                 ("PostDetailsScreen: Failed to fetch post details " +:+ err)
                 st)
        end in
      set_refreshing false (set_loading false st).

End PostDetailsScreen.

End PostDetails.

(** The user-details screen ([src/src/screens/UserDetailsScreen.jsx]). *)
Module UserDetails.

Definition STORAGE_PATHS : list string := ["/storage/"; "/"; "/public/storage/"].

Definition getImageUrl (imagePath : option string) (apiBase : string)
    (isUserAvatar : bool) : option string :=
  match imagePath with
  | None | Some "" => None
  | Some imagePath =>
      if test_http imagePath then Some imagePath
      else
        let cleaned := strip_leading_slashes imagePath in
        if isUserAvatar || startsWith cleaned "avatar/" then
          if negb (includes cleaned "/") then
            Some (apiBase +:+ "/api/users/" +:+ cleaned +:+ "/avatar")
          else Some (apiBase +:+ "/storage/" +:+ cleaned)
        else Some (apiBase +:+ "/storage/" +:+ cleaned)
  end.

Section useImageWithFallback.
(** The case table of the host, [API_CONFIG.BASE_URL], then the
    arguments of the hook. *)
Variable caseTable : N -> text.
Variable BASE_URL : string.
Variable initialImagePath : option string.
Variable userName : option text.
Variable isUserAvatar : bool.

Definition maxRetries : nat := length STORAGE_PATHS.

Definition getInitial : text :=
  if negb (truthy_text userName) then units "U"
  else upperInitial caseTable (text_or userName (units "U")).

(** [useFallbackAvatar] throws when [encodeURIComponent] does. *)
Definition useFallbackAvatar (st : hook) : option hook :=
  match encodeURIComponent getInitial with
  | Some initial =>
      Some {| imageSource := Some (avatarServiceUrl initial);
              imageError := true;
              retryCount := retryCount st |}
  | None => None
  end.

(** [useState(null)], [useState(false)], [useRef(0)] *)
Definition initial : hook :=
  {| imageSource := None; imageError := false; retryCount := 0 |}.

(** The effect that resets and initialises image loading. *)
Definition effect (st : hook) : hook :=
  if truthy initialImagePath then
    {| imageSource := getImageUrl initialImagePath BASE_URL isUserAvatar;
       imageError := false;
       retryCount := 0 |}
  else
    {| imageSource := None;
       imageError := imageError st;
       retryCount := retryCount st |}.

Definition handleImageError (st : hook) : option hook :=
  if (retryCount st <? maxRetries) && truthy initialImagePath then
    let pathIndex := retryCount st in
    let cleaned := strip_leading_slashes (default "" initialImagePath) in
    if pathIndex <? length STORAGE_PATHS then
      let storagePath := nth pathIndex STORAGE_PATHS "" in
      let retryUrl :=
        if isUserAvatar then
          if pathIndex =? 0 then
            BASE_URL +:+ "/storage/avatar/" +:+ replace "avatar/" "" cleaned
          else if pathIndex =? 1 then
            BASE_URL +:+ "/api/users/" +:+
              hd "" (split "/" (replace "avatar/" "" cleaned)) +:+ "/avatar"
          else BASE_URL +:+ storagePath +:+ cleaned
        else BASE_URL +:+ storagePath +:+ cleaned in
      Some {| imageSource := Some retryUrl;
              imageError := imageError st;
              retryCount := pathIndex + 1 |}
    else useFallbackAvatar
           {| imageSource := imageSource st;
              imageError := imageError st;
              retryCount := pathIndex + 1 |}
  else useFallbackAvatar st.

(** The hook after mounting: initial state, then the effect. *)
Definition mounted : hook := effect initial.

(** The hook after [n] reported load failures; [None] when one of the
    handlers has thrown. *)
Definition failures (n : nat) : option hook :=
  Nat.iter n (fun st => st ≫= handleImageError) (Some mounted).

End useImageWithFallback.

(** The user-details screen and its fetch. *)
Section UserDetailsScreen.
(** The type of the profile objects of the API; [t] of [useI18n]. *)
Variable profile_data : Type.
Variable t : string -> string.

Record screen := Screen {
  profile : option profile_data;
  loading : bool;
  error : string;
  refreshing : bool;
  console : list string
}.

(** [response.data]: an object with a [user] field, or the profile
    itself. *)
Inductive body :=
  | WithUser (user : profile_data)
  | Bare (data : profile_data).

Definition set_profile (p : option profile_data) (st : screen) : screen :=
  {| profile := p; loading := loading st; error := error st;
     refreshing := refreshing st; console := console st |}.
Definition set_loading (b : bool) (st : screen) : screen :=
  {| profile := profile st; loading := b; error := error st;
     refreshing := refreshing st; console := console st |}.
Definition set_error (e : string) (st : screen) : screen :=
  {| profile := profile st; loading := loading st; error := e;
     refreshing := refreshing st; console := console st |}.
Definition set_refreshing (b : bool) (st : screen) : screen :=
  {| profile := profile st; loading := loading st; error := error st;
     refreshing := b; console := console st |}.
Definition console_error (line : string) (st : screen) : screen :=
  {| profile := profile st; loading := loading st; error := error st;
     refreshing := refreshing st; console := console st ++ [line] |}.

Definition fetchUserProfile (refreshing_seen : bool)
    (reply : http (option body)) (st : screen) : screen :=
  let st := set_error "" st in
  let st := if negb refreshing_seen then set_loading true st else st in
  let st :=
    match reply with
    | Ok data =>
        let profileData :=
          match data with
          | Some (WithUser user) => Some user
          | Some (Bare d) => Some d
          | None => None
          end in
        set_profile profileData st
    | Failed err =>
        set_error (t "failed_to_load_profile")
          (console_error ("Failed to fetch user profile: " +:+ err) st)
    end in
  set_refreshing false (set_loading false st).

End UserDetailsScreen.

End UserDetails.

(** The home screen ([src/src/screens/HomeScreen.jsx]). *)
Module Home.

Definition STORAGE_PATHS : list string := ["/storage/"; "/"; "/public/storage/"].

Definition getImageUrl (imagePath : option string) (apiBase : string)
    : option string :=
  match imagePath with
  | None | Some "" => None
  | Some imagePath =>
      if test_http imagePath then Some imagePath
      else
        let cleaned := strip_leading_slashes imagePath in
        if startsWith cleaned "storage/garbage_post_images/" then
          Some (apiBase +:+ "/" +:+ cleaned)
        else if startsWith cleaned "garbage_post_images/" then
          Some (apiBase +:+ "/storage/" +:+ cleaned)
        else if startsWith cleaned "avatar/" then
          Some (apiBase +:+ "/storage/" +:+ cleaned)
        else if negb (includes cleaned "/") then
          Some (apiBase +:+ "/storage/avatar/" +:+ cleaned)
        else Some (apiBase +:+ "/" +:+ cleaned)
  end.

(** The home-screen hook keeps no retry counter. *)
Record hook := Hook { imageSource : option string; imageError : bool }.

Section useImageWithFallback.
(** [API_CONFIG.BASE_URL], then the arguments of the hook. *)
Variable BASE_URL : string.
Variables initialUrl userInitial : option string.

(** [userInitial || 'U'], the parameter defaulting to ['U']. *)
Definition getInitial : string :=
or_else userInitial "U".

Definition useFallbackAvatar (st : hook) : hook :=
  {| imageSource := Some (avatarServiceUrl getInitial); imageError := true |}.

(** The [for ... of API_CONFIG.STORAGE_PATHS] loop: the first path the
    URL does not contain gives the alternative, [None] when the loop
    runs to its end. *)
Fixpoint alternative (paths : list string) (originalUrl : string)
    : option string :=
  match paths with
  | [] => None
  | path :: rest =>
      if includes originalUrl path then alternative rest originalUrl
      else
        let filename := List.last (split "/" originalUrl) "" in
        if truthy (Some filename) then Some (BASE_URL +:+ path +:+ filename)
        else alternative rest originalUrl
  end.

Definition initial : hook :=
  {| imageSource := initialUrl; imageError := false |}.

Definition handleImageError (st : hook) : hook :=
  if imageError st then useFallbackAvatar st
  else
    match
      (if truthy initialUrl
       then alternative STORAGE_PATHS (default "" initialUrl) else None)
    with
    | Some alternativeUrl =>
        {| imageSource := Some alternativeUrl; imageError := imageError st |}
    | None => useFallbackAvatar st
    end.

Definition failures (n : nat) : hook := Nat.iter n handleImageError initial.

End useImageWithFallback.

End Home.

(** ** Theme mode ([src/src/theme/ThemeContext.jsx]) *)

Module Theme.

(** The updater passed to [setThemeMode] by [toggleTheme]. *)
Definition toggleTheme (current : string) : string :=
  if decide (current = "light") then "dark"
  else if decide (current = "dark") then "system"
  else "light".

End Theme.

(** ** Events screen ([src/unnamed/part_000]) *)

Module Events.

(** An event as the screen reads it: [date] is the time value of
    [new Date(e.date)], [None] for an invalid date; [title] is [None]
    when the field is missing. *)
Record event := Event { date : option Z; title : option string }.

(** Arrays live in a store and are handled through references, so that
    sorting in place and copying can be told apart. *)
Definition ref := positive.

Definition alloc (h : gmap ref (list event)) (items : list event)
    : gmap ref (list event) * ref :=
  let r := fresh (dom h) in (<[r := items]> h, r).

(** The number returned by a compare function, [None] for [NaN]. *)
Definition minus (a b : option Z) : option Z :=
  match a, b with
  | Some x, Some y => Some (x - y)%Z
  | _, _ => None
  end.

(** [Array.prototype.sort(comparefn)] orders [x] after [y] when
    [comparefn(x, y) > 0]; [NaN] counts as [+0]. The sort is stable;
    it is modelled by insertion, starting from the right end. *)
Definition after (v : option Z) : bool :=
  match v with
  | Some z => (0 <? z)%Z
  | None => false
  end.

Fixpoint insert (comparefn : event -> event -> option Z) (x : event)
    (l : list event) : list event :=
  match l with
  | [] => [x]
  | y :: l' =>
      if after (comparefn x y) then y :: insert comparefn x l' else x :: l
  end.

Definition sort (comparefn : event -> event -> option Z) (l : list event)
    : list event :=
  foldr (insert comparefn) [] l.

(** [arr.sort(comparefn)]: the array behind the reference is reordered
    and the same reference is returned. *)
Definition sort_in_place (comparefn : event -> event -> option Z)
    (h : gmap ref (list event)) (r : ref) : gmap ref (list event) * ref :=
  (alter (sort comparefn) r h, r).

Record screen := Screen {
  heap : gmap ref (list event);
  events : ref;
  loading : bool;
  error : string;
  refreshing : bool;
  console : list string
}.

(** State setters; [setEvents] stores a reference to the new array. *)
Definition set_events (items : list event) (st : screen) : screen :=
  let '(h1, r) := alloc (heap st) items in
  {| heap := h1; events := r; loading := loading st; error := error st;
     refreshing := refreshing st; console := console st |}.
Definition set_loading (b : bool) (st : screen) : screen :=
  {| heap := heap st; events := events st; loading := b; error := error st;
     refreshing := refreshing st; console := console st |}.
Definition set_error (e : string) (st : screen) : screen :=
  {| heap := heap st; events := events st; loading := loading st; error := e;
     refreshing := refreshing st; console := console st |}.
Definition set_refreshing (b : bool) (st : screen) : screen :=
  {| heap := heap st; events := events st; loading := loading st;
     error := error st; refreshing := b; console := console st |}.
Definition console_error (line : string) (st : screen) : screen :=
  {| heap := heap st; events := events st; loading := loading st;
     error := error st; refreshing := refreshing st;
     console := console st ++ [line] |}.

Section EventsScreen.
(** [t] of [useI18n] and [String.prototype.localeCompare]. *)
Variable t : string -> string.
Variable localeCompare : string -> string -> Z.

Definition by_date_asc (a b : event) : option Z := minus (date a) (date b).
Definition by_date_desc (a b : event) : option Z := minus (date b) (date a).
Definition by_title (a b : event) : option Z :=
  Some (localeCompare (or_else (title a) "") (or_else (title b) "")).

(** The body of the [useMemo] that computes [sortedEvents]. *)
Definition sortedEvents (sortBy : string) (h : gmap ref (list event))
    (events : ref) : gmap ref (list event) * ref :=
  let items := default [] (h !! events) in
  if length items =? 0 then alloc h []
  else
    let '(h1, copy) := alloc h items in
    if decide (sortBy = "recent") then sort_in_place by_date_asc h1 copy
    else if decide (sortBy = "oldest") then sort_in_place by_date_desc h1 copy
    else if decide (sortBy = "alphabet") then sort_in_place by_title h1 copy
    else (h1, copy).

(** [fetchEvents]; [refreshing_seen] is the value of [refreshing] in
    the closure of the call. *)
Definition fetchEvents (refreshing_seen : bool)
    (reply : http (jsfield event)) (st : screen) : screen :=
  let st := set_error "" st in
  let st := if negb refreshing_seen then set_loading true st else st in
  let st :=
    match reply with
    | Ok eventsData => set_events (array_or_empty eventsData) st
    | Failed err =>
        set_error (t "events_load_error")
          (console_error ("Failed to fetch events: " +:+ err) st)
    end in
  set_refreshing false (set_loading false st).

End EventsScreen.

End Events.

(** ** Map screen: the posts fetch ([src/src/screens/MapScreen.jsx]) *)

Module MapPosts.

Section MapScreen.
(** Numbers of the host language with the two tests the code relies
    on: [isNaN], and being [+0] or [-0]. *)
Variable number : Type.
Variable isNaN : number -> bool.
Variable isZero : number -> bool.

Inductive jsval :=
  | JUndefined
  | JNull
  | JBool (b : bool)
  | JNumber (n : number)
  | JString (s : string)
  | JObject.

Variable parseFloat : jsval -> number.
Variable t : string -> string.

(** [!!v] *)
Definition truthy_val (v : jsval) : bool :=
  match v with
  | JUndefined | JNull => false
  | JBool b => b
  | JNumber n => negb (isNaN n) && negb (isZero n)
  | JString s => truthy (Some s)
  | JObject => true
  end.

(** A post of the reply, with the fields the coordinates are read
    from; [raw_id] stands for the fields that the spread copies as they
    are, [images_throws] says that [post.images?.find(...)] throws. *)
Record raw_post := RawPost {
  raw_id : jsval;
  latitude : jsval;
  lat_field : jsval;
  longitude : jsval;
  lng_field : jsval;
  images_throws : bool
}.

(** A post of the [posts] state; [None] stands for [null]. *)
Record post := Post {
  origin : raw_post;
  lat : option number;
  lng : option number
}.

Definition coordinate (first second : jsval) : option number :=
  if truthy_val first && negb (isNaN (parseFloat first)) then
    Some (parseFloat first)
  else if truthy_val second && negb (isNaN (parseFloat second)) then
    Some (parseFloat second)
  else None.

(** The callback of [data.map]: the processed post and the lines it
    writes to the console. A [null] element throws in the [try] block
    and again in the [catch] block, after the line of that block is
    written, which ends the whole [map]. *)
Definition process (item : option raw_post) : option (post * list string) :=
  match item with
  | None => None
  | Some p =>
      if images_throws p then
        Some ({| origin := p; lat := None; lng := None |},
              ["Error processing post: TypeError"])
      else
        Some ({| origin := p;
                 lat := coordinate (latitude p) (lat_field p);
                 lng := coordinate (longitude p) (lng_field p) |}, [])
  end.

Fixpoint process_all (data : list (option raw_post))
    : option (list post * list string) :=
  match data with
  | [] => Some ([], [])
  | item :: rest =>
      match process item with
      | None => None
      | Some (p, lines) =>
          match process_all rest with
          | None => None
          | Some (ps, more) => Some (p :: ps, lines ++ more)
          end
      end
  end.

(** The lines on the console when the [map] is ended by a throw: those
    of the elements before the [null] one, and the line its [catch]
    block writes before it throws in turn. *)
Fixpoint thrown_lines (data : list (option raw_post)) : list string :=
  match data with
  | [] => []
  | item :: rest =>
      match process item with
      | None => ["Error processing post: TypeError"]
      | Some (_, lines) => lines ++ thrown_lines rest
      end
  end.

(** [post.lat && post.lng] as a filter condition. *)
Definition truthy_number (v : option number) : bool :=
  match v with
  | Some n => negb (isNaN n) && negb (isZero n)
  | None => false
  end.

Definition has_coordinates (p : post) : bool :=
  truthy_number (lat p) && truthy_number (lng p).

(** The shapes of [response.data] the fetch looks for. *)
Record response := Response {
  garbagePosts_data : jsfield (option raw_post);
  direct_array : option (list (option raw_post));
  data_data : jsfield (option raw_post)
}.

Definition responseData (r : response)
    : jsfield (option raw_post) * list string :=
  match garbagePosts_data r with
  | Falsy =>
      match direct_array r with
      | Some items => (Arr items, [])
      | None =>
          match data_data r with
          | Arr items => (Arr items, [])
          | _ => (Arr [], ["Unexpected API response structure"])
          end
      end
  | found => (found, [])
  end.

Record screen := Screen {
  posts : list post;
  postsLoading : bool;
  postsError : string;
  refreshing : bool;
  console : list string
}.

Definition set_posts (ps : list post) (st : screen) : screen :=
  {| posts := ps; postsLoading := postsLoading st;
     postsError := postsError st; refreshing := refreshing st;
     console := console st |}.
Definition set_postsLoading (b : bool) (st : screen) : screen :=
  {| posts := posts st; postsLoading := b; postsError := postsError st;
     refreshing := refreshing st; console := console st |}.
Definition set_postsError (e : string) (st : screen) : screen :=
  {| posts := posts st; postsLoading := postsLoading st; postsError := e;
     refreshing := refreshing st; console := console st |}.
Definition set_refreshing (b : bool) (st : screen) : screen :=
  {| posts := posts st; postsLoading := postsLoading st;
     postsError := postsError st; refreshing := b; console := console st |}.
Definition console_lines (lines : list string) (st : screen) : screen :=
  {| posts := posts st; postsLoading := postsLoading st;
     postsError := postsError st; refreshing := refreshing st;
     console := console st ++ lines |}.

(** The [catch] block of [fetchPosts]. *)
Definition failed (err : string) (st : screen) : screen :=
  set_postsError (t "failed_to_load_map")
    (console_lines ["Failed to fetch posts: " +:+ err] st).

Definition fetchPosts (refreshing_seen : bool) (reply : http response)
    (st : screen) : screen :=
  let st := set_postsError "" st in
  let st := if negb refreshing_seen then set_postsLoading true st else st in
  let st :=
    match reply with
    | Ok r =>
        let '(found, warning) := responseData r in
        let st := console_lines warning st in
        match process_all (array_or_empty found) with
        | Some (processed, lines) =>
            set_posts (filter (fun p => has_coordinates p = true) processed)
              (console_lines lines st)
        | None =>
            failed "TypeError"
              (console_lines (thrown_lines (array_or_empty found)) st)
        end
    | Failed err => failed err st
    end in
  set_refreshing false (set_postsLoading false st).

End MapScreen.

End MapPosts.

(** ** The key-value store and the operations that use it

    [AsyncStorage] is reached from the theme provider, from the polls
    screen ([loadSavedVotes], [handleVote]) and from [loadToken] of the
    home and post-details screens; the auth provider
    ([src/src/auth/AuthContext.jsx]) keeps its token in memory. *)

Module App.

Definition LOCAL_VOTES_KEY : string := "user_poll_votes".

(** An entry of the [userVotes] state of the polls screen. *)
Record vote := Vote {
  optionId : option string;
  voteId : option string;
  message : option string;
  type : option string
}.

Definition no_vote : vote :=
  {| optionId := None; voteId := None; message := None; type := None |}.

(** [store] is the content of [AsyncStorage]; the other fields are the
    states kept in memory by the theme provider, the polls screen, the
    auth provider and the screens that read the cached token. *)
Record app := App_ {
  store : gmap string string;
  themeMode : string;
  userVotes : gmap string vote;
  token : option string;
  storedToken : option string;
  console : list string
}.

Definition set_store (m : gmap string string) (st : app) : app :=
  {| store := m; themeMode := themeMode st; userVotes := userVotes st;
     token := token st; storedToken := storedToken st;
     console := console st |}.
Definition set_themeMode (m : string) (st : app) : app :=
  {| store := store st; themeMode := m; userVotes := userVotes st;
     token := token st; storedToken := storedToken st;
     console := console st |}.
Definition set_userVotes (v : gmap string vote) (st : app) : app :=
  {| store := store st; themeMode := themeMode st; userVotes := v;
     token := token st; storedToken := storedToken st;
     console := console st |}.
Definition set_token (v : option string) (st : app) : app :=
  {| store := store st; themeMode := themeMode st; userVotes := userVotes st;
     token := v; storedToken := storedToken st; console := console st |}.
Definition set_storedToken (v : option string) (st : app) : app :=
  {| store := store st; themeMode := themeMode st; userVotes := userVotes st;
     token := token st; storedToken := v; console := console st |}.
Definition console_error (line : string) (st : app) : app :=
  {| store := store st; themeMode := themeMode st; userVotes := userVotes st;
     token := token st; storedToken := storedToken st;
     console := console st ++ [line] |}.

(** [AsyncStorage.setItem(key, value)]; [ok] says that the write goes
    through, a rejected write leaves the store as it was. *)
Definition setItem (ok : bool) (key value : string) (st : app) : app :=
  if ok then set_store (<[key := value]> (store st)) st else st.

Section Operations.
(** [t] of [useI18n], [JSON.stringify] and [JSON.parse] on the votes. *)
Variable t : string -> string.
Variable stringify : gmap string vote -> string.
Variable parse : string -> option (gmap string vote).

(** The effect of the theme provider that runs when [themeMode]
    changes. *)
Definition saveThemePreference (ok : bool) (st : app) : app :=
  if ok then setItem true "theme_preference" (themeMode st) st
  else console_error "Failed to save theme preference" st.

Definition themeEffect (ok : bool) (st : app) : app :=
  if bool_decide (themeMode st <> "system") then saveThemePreference ok st
  else st.

Definition toggleTheme (ok : bool) (st : app) : app :=
  themeEffect ok (set_themeMode (Theme.toggleTheme (themeMode st)) st).

Definition loadThemePreference (ok : bool) (st : app) : app :=
  match store st !! "theme_preference" with
  | Some (String _ _ as savedTheme) =>
      themeEffect ok (set_themeMode savedTheme st)
  | _ => st
  end.

(** [loadSavedVotes] of the polls screen. *)
Definition loadSavedVotes (st : app) : app :=
  match store st !! LOCAL_VOTES_KEY with
  | Some (String _ _ as savedVotes) =>
      match parse savedVotes with
      | Some votes => set_userVotes votes st
      | None => console_error "Failed to load saved votes" st
      end
  | _ => st
  end.

(** [loadToken] of the home and post-details screens. *)
Definition loadToken (st : app) : app :=
  set_storedToken (store st !! "auth_token") st.

(** The body of [handleVote] for a given value of its local constant
    [token]; [reply] is the answer to the vote request with the id of
    the new vote. *)
Definition handleVote_body (token : option string) (ok : bool)
    (pollId option_id : string) (reply : http (option string))
    (st : app) : app :=
  let prev := userVotes st in
  let current := default no_vote (prev !! pollId) in
  if negb (truthy token) then
    set_userVotes
      (<[pollId :=
           {| optionId := optionId current; voteId := voteId current;
              message := Some (or_else (Some (t "auth_required"))
                                 "You must be signed in to vote");
              type := Some "error" |}]> prev) st
  else
    match reply with
    | Ok newVoteId =>
        if truthy (voteId current) then
          let next :=
            <[pollId :=
                {| optionId := None; voteId := None;
                   message := Some (or_else (Some (t "vote_removed"))
                                      "Vote removed");
                   type := Some "success" |}]> prev in
          setItem ok LOCAL_VOTES_KEY (stringify (delete pollId prev))
            (set_userVotes next st)
        else
          let next :=
            <[pollId :=
                {| optionId := Some option_id; voteId := newVoteId;
                   message := Some (or_else (Some (t "vote_submitted"))
                                      "Vote submitted");
                   type := Some "success" |}]> prev in
          setItem ok LOCAL_VOTES_KEY (stringify next)
            (set_userVotes next st)
    | Failed err =>
        let isDelete := truthy (voteId current) in
        set_userVotes
          (<[pollId :=
               {| optionId := optionId current; voteId := voteId current;
                  message :=
                    Some (if isDelete
                          then or_else (Some (t "vote_remove_failed"))
                                 "Failed to remove vote"
                          else or_else (Some (t "vote_submit_failed"))
                                 "Failed to submit vote");
                  type := Some "error" |}]> prev)
          (console_error ("Failed to vote: " +:+ err) st)
    end.

(** [handleVote]: its [token] is the constant [null]. *)
Definition handleVote : bool -> string -> string -> http (option string)
    -> app -> app :=
  handleVote_body None.

(** [login] and [logout] of the auth provider keep the token in the
    state of the provider. *)
Definition login (reply : http (option string)) (st : app) : app :=
  match reply with
  | Ok (Some (String _ _ as tkn)) => set_token (Some tkn) st
  | _ => st
  end.

Definition logout (st : app) : app := set_token None st.

(** The operations of the application that reach the store or the
    token. *)
Inductive operation :=
  | ToggleTheme (ok : bool)
  | LoadThemePreference (ok : bool)
  | LoadSavedVotes
  | LoadToken
  | HandleVote (ok : bool) (pollId option_id : string)
      (reply : http (option string))
  | Login (reply : http (option string))
  | Logout.

Definition step (st : app) (o : operation) : app :=
  match o with
  | ToggleTheme ok => toggleTheme ok st
  | LoadThemePreference ok => loadThemePreference ok st
  | LoadSavedVotes => loadSavedVotes st
  | LoadToken => loadToken st
  | HandleVote ok pollId option_id reply =>
      handleVote ok pollId option_id reply st
  | Login reply => login reply st
  | Logout => logout st
  end.

Definition run (st : app) (ops : list operation) : app :=
  foldl step st ops.

End Operations.

End App.

(** ** Numbers in texts *)

(** [n] in a template literal, for a natural number. *)
Definition show (n : N) : string := NilZero.string_of_uint (N.to_uint n).

(** ** The auth provider ([src/src/auth/AuthContext.jsx]) *)

Module Auth.

(** The [read] field of a notification as the unread test sees it, and
    whether [read_at] is [null] or missing. *)
Inductive read_value := ReadFalse | ReadZero | ReadOther.

Record notification := Notification {
  read : read_value;
  read_at_null : bool
}.

(** [n?.read === false || n?.read === 0 || n?.read_at == null]; the
    entry itself may be [null]. *)
Definition unread (n : option notification) : bool :=
  match n with
  | None => true
  | Some n =>
      match read n with
      | ReadFalse | ReadZero => true
      | ReadOther => read_at_null n
      end
  end.

(** The headers [request] sends: later spreads override earlier ones. *)
Definition request_headers (json : bool) (token : option string)
    (headers : option (gmap string string)) : gmap string string :=
  default ∅ headers
  ∪ (if truthy token
     then {["Authorization" := "Bearer " +:+ or_else token ""]} else ∅)
  ∪ (if json then {["Content-Type" := "application/json"]} else ∅)
  ∪ {["Accept" := "application/json"]}.

Section AuthProvider.
(** The parsed bodies of the API and the fields the provider reads from
    them: [data?.message], [data?.error], [data?.token],
    [data?.access_token], [data?.data?.token], [data?.user],
    [Number(data?.points ?? data?.data ?? data ?? 0)] ([None] for [NaN])
    and [data?.data ?? data?.notifications ?? data ?? []]. *)
Variable json : Type.
Variables message_of error_of : json -> option string.
Variables token_of access_token_of data_token_of : json -> option string.
Variable user_of : json -> option json.
Variable points_number : option json -> option Z.
Variable notifications_of : option json -> jsfield (option notification).
Variable API_BASE : string.

(** What [fetch] does: it throws an error with a [name] and a [message],
    or gives a response whose body is [res.json()], [null] when that
    fails. *)
Inductive fetched :=
  | Thrown (name message : option string)
  | Response (ok : bool) (status : N) (body : option json).

(** The errors thrown by [request] and by the sign-in functions. *)
Record error := Error {
  message : string;
  status : option N;
  data : option json;
  network : bool
}.

Definition request (f : fetched) : error + option json :=
  match f with
  | Thrown name msg =>
      let isAbort := bool_decide (name = Some "AbortError") in
      inl {| message :=
               if isAbort then "Network timeout. Please check your connection."
               else or_else msg "Network request failed";
             status := None; data := None; network := true |}
  | Response ok st body =>
      if negb ok then
        let msg :=
          or_else (body ≫= message_of)
            (or_else (body ≫= error_of)
               ("Request failed (" +:+ show st +:+ ")")) in
        inl {| message := msg; status := Some st; data := body;
               network := false |}
      else inr body
  end.

Record provider := Provider {
  token : option string;
  user : option json;
  points : Z;
  notifications : list (option notification);
  unreadCount : nat;
  loading : bool;
  alerts : list (string * string)
}.

(** [useState] initial values. *)
Definition signed_out : provider :=
  {| token := None; user := None; points := 0%Z; notifications := [];
     unreadCount := 0; loading := false; alerts := [] |}.

Definition set_token (v : option string) (st : provider) : provider :=
  {| token := v; user := user st; points := points st;
     notifications := notifications st; unreadCount := unreadCount st;
     loading := loading st; alerts := alerts st |}.
Definition set_user (v : option json) (st : provider) : provider :=
  {| token := token st; user := v; points := points st;
     notifications := notifications st; unreadCount := unreadCount st;
     loading := loading st; alerts := alerts st |}.
Definition set_points (v : Z) (st : provider) : provider :=
  {| token := token st; user := user st; points := v;
     notifications := notifications st; unreadCount := unreadCount st;
     loading := loading st; alerts := alerts st |}.
Definition set_notifications (v : list (option notification)) (st : provider)
    : provider :=
  {| token := token st; user := user st; points := points st;
     notifications := v; unreadCount := unreadCount st;
     loading := loading st; alerts := alerts st |}.
Definition set_unreadCount (v : nat) (st : provider) : provider :=
  {| token := token st; user := user st; points := points st;
     notifications := notifications st; unreadCount := v;
     loading := loading st; alerts := alerts st |}.
Definition set_loading (v : bool) (st : provider) : provider :=
  {| token := token st; user := user st; points := points st;
     notifications := notifications st; unreadCount := unreadCount st;
     loading := v; alerts := alerts st |}.
Definition alert (title text : string) (st : provider) : provider :=
  {| token := token st; user := user st; points := points st;
     notifications := notifications st; unreadCount := unreadCount st;
     loading := loading st; alerts := alerts st ++ [(title, text)] |}.

(** The three loaders; each rethrows the error of its request. *)
Definition loadProfile (f : fetched) (st : provider) : error + provider :=
  match request f with
  | inl e => inl e
  | inr data =>
      inr (set_user (match data ≫= user_of with
                     | Some u => Some u
                     | None => data
                     end) st)
  end.

Definition loadPoints (f : fetched) (st : provider) : error + provider :=
  match request f with
  | inl e => inl e
  | inr data => inr (set_points (default 0%Z (points_number data)) st)
  end.

Definition loadNotifications (f : fetched) (st : provider) : error + provider :=
  match request f with
  | inl e => inl e
  | inr data =>
      let list := array_or_empty (notifications_of data) in
      let count := length (List.filter unread list) in
      inr (set_unreadCount count (set_notifications list st))
  end.

(** [loader(tkn).catch(() => {})] *)
Definition caught (loader : fetched -> provider -> error + provider)
    (f : fetched) (st : provider) : provider :=
  match loader f st with
  | inl _ => st
  | inr st' => st'
  end.

(** [data?.token || data?.access_token || data?.data?.token] *)
Definition token_in (data : option json) : option string :=
  if truthy (data ≫= token_of) then data ≫= token_of
  else if truthy (data ≫= access_token_of) then data ≫= access_token_of
  else data ≫= data_token_of.

(** What the sign-in functions return. *)
Record outcome := Outcome { success : bool; failure : option string }.

(** The [catch] block shared by [login], [loginWithGoogle] and
    [loginWithApple]. *)
Definition sign_in_failed (title : string) (e : error) (st : provider)
    : outcome * provider :=
  let text :=
    if network e then
      "Network error. Cannot reach " +:+ API_BASE +:+
      ". Ensure phone & server are on same LAN, server is bound to 0.0.0.0:8000, and firewall allows access."
    else or_else (Some (message e)) "Please try again" in
  ({| success := false; failure := Some text |}, alert title text st).

(** The body shared by the three sign-in functions, which differ in the
    endpoint and in the title of the alert; the four arguments are what
    [fetch] does for the sign-in request and for the three loaders. *)
Definition sign_in (title : string) (f f_profile f_points f_notifications : fetched)
    (st : provider) : outcome * provider :=
  let st := set_loading true st in
  let '(result, st) :=
    match request f with
    | inl e => sign_in_failed title e st
    | inr data =>
        match token_in data with
        | Some (String _ _ as tkn) =>
            let st := set_token (Some tkn) st in
            let st := caught loadProfile f_profile st in
            let st := caught loadPoints f_points st in
            let st := caught loadNotifications f_notifications st in
            ({| success := true; failure := None |}, st)
        | _ =>
            sign_in_failed title
              {| message := "No token in response"; status := None;
                 data := None; network := false |} st
        end
    end in
  (result, set_loading false st).

Definition login := sign_in "Login failed".
Definition loginWithGoogle := sign_in "Google login failed".
Definition loginWithApple := sign_in "Apple login failed".

(** [register] signs in only when the reply carries a token, and leaves
    the report of an error to the screen: it returns the message, the
    status and the body of the error. *)
Definition register (f f_profile f_points f_notifications : fetched)
    (st : provider)
    : (bool * option (string * option N * option json)) * provider :=
  let st := set_loading true st in
  let '(result, st) :=
    match request f with
    | inl e =>
        ((false,
          Some (or_else (Some (message e)) "Registration failed",
                status e, data e)),
         st)
    | inr data =>
        match token_in data with
        | Some (String _ _ as tkn) =>
            let st := set_token (Some tkn) st in
            let st := caught loadProfile f_profile st in
            let st := caught loadPoints f_points st in
            let st := caught loadNotifications f_notifications st in
            ((true, None), st)
        | _ => ((true, None), st)
        end
    end in
  (result, set_loading false st).

(** [logout]: the request is made with a token only, and its failure is
    ignored. *)
Definition logout (f : fetched) (st : provider) : provider :=
  set_unreadCount 0 (set_notifications [] (set_points 0%Z
    (set_user None (set_token None st)))).

Definition clearAllNotifications (f : fetched) (st : provider) : provider :=
  if negb (truthy (token st)) then st
  else
    match request f with
    | inl _ => st
    | inr _ => set_unreadCount 0 (set_notifications [] st)
    end.

(** The unread counter agrees with the list, the token is absent or not
    empty, and nothing is loading. *)
Definition provider_ok (st : provider) : Prop :=
  unreadCount st = length (List.filter unread (notifications st)) /\
  (token st = None \/ truthy (token st) = true) /\
  loading st = false.

(** The operations the provider offers. *)
Inductive operation :=
  | Login (f f_profile f_points f_notifications : fetched)
  | LoginWithGoogle (f f_profile f_points f_notifications : fetched)
  | LoginWithApple (f f_profile f_points f_notifications : fetched)
  | Register (f f_profile f_points f_notifications : fetched)
  | Logout (f : fetched)
  | ClearAllNotifications (f : fetched).

Definition step (st : provider) (o : operation) : provider :=
  match o with
  | Login f f1 f2 f3 => (login f f1 f2 f3 st).2
  | LoginWithGoogle f f1 f2 f3 => (loginWithGoogle f f1 f2 f3 st).2
  | LoginWithApple f f1 f2 f3 => (loginWithApple f f1 f2 f3 st).2
  | Register f f1 f2 f3 => (register f f1 f2 f3 st).2
  | Logout f => logout f st
  | ClearAllNotifications f => clearAllNotifications f st
  end.

End AuthProvider.

End Auth.

(** ** The feed of the home screen ([src/src/screens/HomeScreen.jsx]) *)

Module HomeFeed.







Section GetTimeAgo.
(** [new Date(posted).getTime()], [None] for [NaN], and [Date.now()]. *)
Variable parseDate : string -> option Z.
Variable now : Z.
(** [String(parseInt(ds, 10))] for a run of digits [ds] that stands for
    a number beyond [2^53]: there [parseInt] rounds to a number of the
    host, which is printed with an exponent from [10^21] on. *)
Variable roundedText : string -> string.



End GetTimeAgo.

(** An entry of the favorites reply: the four places where the id of the
    post may be, each as [String] renders it, [None] for [null] or
    missing. *)
Record favorite := Favorite {
  garbage_post_id : option string;
  post_id : option string;
  garbage_post : option string;
  post : option string
}.

(** [item?.garbage_post_id ?? item?.post_id ?? item?.garbage_post?.id ??
    item?.post?.id ?? null] *)
Definition pid (item : option favorite) : option string :=
  match item with
  | None => None
  | Some item =>
      match garbage_post_id item, post_id item, garbage_post item with
      | Some k, _, _ => Some k
      | None, Some k, _ => Some k
      | None, None, Some k => Some k
      | None, None, None => post item
      end
  end.

(** The places of the reply where the list may be. *)
Record payload := Payload {
  favoritePosts : jsfield (option favorite);
  favorites : jsfield (option favorite);
  data : jsfield (option favorite);
  favorite_posts : jsfield (option favorite);
  favorite_posts_data : jsfield (option favorite)
}.

(** [candidates.find((x) => Array.isArray(x)) || []] *)
Definition favorite_list (p : payload) : list (option favorite) :=
  match favoritePosts p, favorites p, data p, favorite_posts p,
        favorite_posts_data p with
  | Arr l, _, _, _, _ => l
  | _, Arr l, _, _, _ => l
  | _, _, Arr l, _, _ => l
  | _, _, _, Arr l, _ => l
  | _, _, _, _, Arr l => l
  | _, _, _, _, _ => []
  end.

(** The loop that builds the map of favorites. *)
Definition favorite_map (l : list (option favorite)) : gmap string bool :=
  foldl (fun map item =>
           match pid item with
           | Some k => <[k := true]> map
           | None => map
           end) ∅ l.

(** The states of the [Posts] component that its handlers use. *)
Record posts := Posts {
  token : option string;
  favoritedByPost : gmap string bool;
  favoriting : gmap string bool;
  reactionTypeByPost : gmap string string;
  reactionFlashByPost : gmap string (string * string);
  console : list string
}.

Definition set_favoritedByPost (m : gmap string bool) (st : posts) : posts :=
  {| token := token st; favoritedByPost := m; favoriting := favoriting st;
     reactionTypeByPost := reactionTypeByPost st;
     reactionFlashByPost := reactionFlashByPost st; console := console st |}.
Definition set_favoriting (m : gmap string bool) (st : posts) : posts :=
  {| token := token st; favoritedByPost := favoritedByPost st; favoriting := m;
     reactionTypeByPost := reactionTypeByPost st;
     reactionFlashByPost := reactionFlashByPost st; console := console st |}.
Definition set_reactionTypeByPost (m : gmap string string) (st : posts) : posts :=
  {| token := token st; favoritedByPost := favoritedByPost st;
     favoriting := favoriting st; reactionTypeByPost := m;
     reactionFlashByPost := reactionFlashByPost st; console := console st |}.
Definition set_reactionFlashByPost (m : gmap string (string * string))
    (st : posts) : posts :=
  {| token := token st; favoritedByPost := favoritedByPost st;
     favoriting := favoriting st; reactionTypeByPost := reactionTypeByPost st;
     reactionFlashByPost := m; console := console st |}.
Definition console_error (line : string) (st : posts) : posts :=
  {| token := token st; favoritedByPost := favoritedByPost st;
     favoriting := favoriting st; reactionTypeByPost := reactionTypeByPost st;
     reactionFlashByPost := reactionFlashByPost st;
     console := console st ++ [line] |}.

Definition fetchFavorites (reply : http (option payload)) (st : posts) : posts :=
  if negb (truthy (token st)) then set_favoritedByPost ∅ st
  else
    match reply with
    | Ok p =>
        set_favoritedByPost
          (favorite_map (match p with Some p => favorite_list p | None => [] end))
          st
    | Failed err => console_error ("Failed to fetch favorites " +:+ err) st
    end.

(** [toggleFavorite]; [postId] is the key [String(postId)]. *)
Definition toggleFavorite (postId : string) (reply : http unit) (st : posts)
    : posts :=
  if negb (truthy (token st)) then st
  else if default false (favoriting st !! postId) then st
  else
    let isFav := default false (favoritedByPost st !! postId) in
    let st := set_favoriting (<[postId := true]> (favoriting st)) st in
    let st :=
      match reply with
      | Ok _ =>
          set_favoritedByPost (<[postId := negb isFav]> (favoritedByPost st)) st
      | Failed err => console_error ("Toggle favorite failed " +:+ err) st
      end in
    set_favoriting (<[postId := false]> (favoriting st)) st.

(** [toggleReaction], up to the timer it starts. *)
Definition toggleReaction (postId reactionType : string) (st : posts) : posts :=
  if negb (truthy (token st)) then st
  else
    let currentReaction := reactionTypeByPost st !! postId in
    let st :=
      if bool_decide (currentReaction = Some reactionType) then
        set_reactionTypeByPost (delete postId (reactionTypeByPost st)) st
      else
        set_reactionTypeByPost (<[postId := reactionType]> (reactionTypeByPost st)) st
    in
    set_reactionFlashByPost
      (<[postId := ("Reaction saved", "success")]> (reactionFlashByPost st)) st.

(** The callback of the timer, 1500 ms later. *)
Definition flashExpired (postId : string) (st : posts) : posts :=
  set_reactionFlashByPost (delete postId (reactionFlashByPost st)) st.

End HomeFeed.

(** ** The list of the map screen ([src/src/screens/MapScreen.jsx]) *)
Module MapList.

(** The copy of [getImageUrl] of the map screen; it takes the flag
    [isUserAvatar] and does not read it. *)
Definition getImageUrl (BASE_URL : string) (imagePath : option string)
    (isUserAvatar : bool) : option string :=
  match imagePath with
  | None | Some "" => None
  | Some imagePath =>
      if test_http imagePath then Some imagePath
      else
        let cleaned := strip_leading_slashes imagePath in
        if startsWith cleaned "garbage_post_images/" then
          Some (BASE_URL +:+ "/storage/" +:+ cleaned)
        else if startsWith cleaned "storage/" then
          Some (BASE_URL +:+ "/" +:+ cleaned)
        else if startsWith cleaned "avatar/" then
          Some (BASE_URL +:+ "/storage/" +:+ cleaned)
        else Some (BASE_URL +:+ "/storage/" +:+ cleaned)
  end.

(** The fields of a listed post that the filter reads, each a text or
    absent. *)
Record user := User { name : option string }.

Record post := Post {
  createdAt : option string;
  created_at : option string;
  description : option string;
  author : option user
}.

Section FilteredPosts.
(** [new Date(s).getTime()], [None] for [NaN]; [Date.now()];
    [s.toLowerCase()]. *)
Variable parseDate : string -> option Z.
Variable nowTs : Z.
Variable toLowerCase : string -> string.
(** The states [sortRange] and [searchQuery]. *)
Variable sortRange : string.
Variable searchQuery : string.

Definition withinRange (dateStr : option string) : bool :=
  if negb (truthy dateStr) then bool_decide (sortRange = "AllTimes")
  else
    match parseDate (or_else dateStr "") with
    | None => true
    | Some ts =>
        if bool_decide (sortRange = "24H") then
          (nowTs - ts <=? 24 * 60 * 60 * 1000)%Z
        else if bool_decide (sortRange = "LastWeek") then
          (nowTs - ts <=? 7 * 24 * 60 * 60 * 1000)%Z
        else true
    end.

(** [a || b] on two fields. *)
Definition first_of (a b : option string) : option string :=
  if truthy a then a else b.

(** The callback of [posts.filter]. *)
Definition shown (p : post) : bool :=
  if negb (withinRange (first_of (createdAt p) (created_at p))) then false
  else if negb (truthy (Some searchQuery)) then true
  else
    let query := trim (toLowerCase searchQuery) in
    let description := toLowerCase (or_else (description p) "") in
    let userName :=
      toLowerCase
        (or_else (match author p with Some u => name u | None => None end) "") in
    includes description query || includes userName query.

Definition filteredPosts (posts : list post) : list post :=
  match posts with
  | [] => []
  | _ => List.filter shown posts
  end.

End FilteredPosts.

End MapList.

(** ** The name shown on the user-details screen
    ([src/src/screens/UserDetailsScreen.jsx]) *)
Module UserName.

Record user_detail := UserDetail {
  first_name : option string;
  last_name : option string
}.

Record profile := Profile {
  detail : option user_detail;
  name : option string
}.

Section GetFullName.
Variable t : string -> string.

(** [profile.user_detail?.first_name] and [profile.user_detail?.last_name] *)
Definition first_name_of (p : profile) : option string :=
  match detail p with
  | Some d => first_name d
  | None => None
  end.

Definition last_name_of (p : profile) : option string :=
  match detail p with
  | Some d => last_name d
  | None => None
  end.

Definition getFullName (profile : option profile) : string :=
  match profile with
  | None => ""
  | Some p =>
      let firstName := or_else (first_name_of p) "" in
      let lastName := or_else (last_name_of p) "" in
      if truthy (Some firstName) || truthy (Some lastName) then
        trim (firstName +:+ " " +:+ lastName)
      else or_else (name p) (t "anonymous")
  end.

End GetFullName.

End UserName.

(** ** Values and orders the statements refer to *)

(** A run of [n] slashes. *)
Fixpoint slashes (n : nat) : string :=
  match n with
  | 0 => ""
  | S n' => String "/" (slashes n')
  end.

(** The candidate the handler selects at cursor position [i]. *)
Definition retry_candidate (BASE_URL cleaned : string) (isUserAvatar : bool)
    (i : nat) : string :=
  match isUserAvatar, i with
  | true, 0 => BASE_URL +:+ "/storage/avatar/" +:+ replace "avatar/" "" cleaned
  | true, 1 =>
      BASE_URL +:+ "/api/users/" +:+
        hd "" (split "/" (replace "avatar/" "" cleaned)) +:+ "/avatar"
  | false, 0 => BASE_URL +:+ "/storage/" +:+ cleaned
  | false, 1 => BASE_URL +:+ "/" +:+ cleaned
  | _, _ => BASE_URL +:+ "/public/storage/" +:+ cleaned
  end.


(** The source once the templates are exhausted; [None] when building
    it throws. *)
Definition fallbackUrl (caseTable : N -> text) (userName : option text)
    : option string :=
  avatarServiceUrl <$>
    encodeURIComponent
      (match userName with
       | Some (u :: _) => upper_unit caseTable u
       | _ => units "U"
       end).

(** The state with the fallback avatar in place. *)
Definition fallback_state (url : string) (cursor : nat) : hook :=
  {| imageSource := Some url; imageError := true; retryCount := cursor |}.

(** [path] is the first of [paths] that does not occur in [url]. *)
Definition first_unused (paths : list string) (url path : string) : Prop :=
  exists before after,
    paths = before ++ path :: after /\
    Forall (fun p => includes url p = true) before /\
    includes url path = false.

(** [file] is the last segment of [url]: what follows its last slash,
    the whole of it when it has none. *)
Definition last_segment (url file : string) : Prop :=
  includes file "/" = false /\
  (url = file \/ exists dir, url = dir +:+ "/" +:+ file).

(** The orders the statement speaks of. *)
Definition has_date (e : Events.event) : Prop := is_Some (Events.date e).

Definition not_later (a b : Events.event) : Prop :=
  match Events.date a, Events.date b with
  | Some x, Some y => (x <= y)%Z
  | _, _ => False
  end.

Definition title_before (localeCompare : string -> string -> Z)
    (a b : Events.event) : Prop :=
  (localeCompare (or_else (Events.title a) "") (or_else (Events.title b) "") <= 0)%Z.

(** A coordinate that is a number, not [NaN] and not zero; a post with
    two such coordinates. *)
Definition coordinate_placed (number : Type) (isNaN isZero : number -> bool)
    (v : option number) : Prop :=
  exists n, v = Some n /\ isNaN n = false /\ isZero n = false.

Definition post_placed (number : Type) (isNaN isZero : number -> bool)
    (p : MapPosts.post number) : Prop :=
  coordinate_placed number isNaN isZero (MapPosts.lat number p) /\
  coordinate_placed number isNaN isZero (MapPosts.lng number p).

(** Whole numbers as an instance of the numbers of the map screen, for
    worked examples: [None] is [NaN], and [parseFloat] reads a leading
    run of decimal digits. *)
Definition digit (c : ascii) : option Z :=
  let n := nat_of_ascii c in
  if (48 <=? n) && (n <=? 57) then Some (Z.of_nat (n - 48)) else None.

Fixpoint digits (acc : option Z) (s : string) : option Z :=
  match s with
  | "" => acc
  | String c s' =>
      match digit c with
      | Some d => digits (Some (10 * default 0%Z acc + d)%Z) s'
      | None => acc
      end
  end.

Definition whole_isNaN (n : option Z) : bool := negb (bool_decide (is_Some n)).
Definition whole_isZero (n : option Z) : bool := bool_decide (n = Some 0%Z).
Definition whole_parseFloat (v : MapPosts.jsval (option Z)) : option Z :=
  match v with
  | MapPosts.JNumber _ n => n
  | MapPosts.JString _ s => digits None (trim_start s)
  | _ => None
  end.

(** * Properties *)

(** ** Facts about the string primitives *)

#[local] Arguments String.append !_ _ / : simpl nomatch.

Lemma append_nil_r (s : string) : s +:+ "" = s.
Proof. induction s as [|c s IH]; simpl; [reflexivity | now rewrite IH]. Qed.

Lemma append_assoc (a b c : string) : (a +:+ b) +:+ c = a +:+ b +:+ c.
Proof. induction a as [|x a IH]; simpl; [reflexivity | now rewrite IH]. Qed.




Lemma startsWith_append (p s : string) : startsWith (p +:+ s) p = true.
Proof.
  induction p as [|c p IH]; simpl; [reflexivity|].
  destruct (decide (c = c)); [exact IH | congruence].
Qed.

Lemma startsWith_spec (s p : string) :
  startsWith s p = true <-> exists rest, s = p +:+ rest.
Proof.
  split.
  - revert s. induction p as [|c p IH]; intros s H.
    + now exists s.
    + destruct s as [|d s]; simpl in H; [discriminate|].
      destruct (decide (c = d)) as [->|]; [|discriminate].
      destruct (IH _ H) as [rest ->]. now exists rest.
  - intros [rest ->]. apply startsWith_append.
Qed.

(** What stripping the leading slashes gives: the input is a run of
    slashes followed by the result, which does not start with a slash. *)
Lemma strip_leading_slashes_spec (s : string) :
  startsWith (strip_leading_slashes s) "/" = false /\
  exists n, s = slashes n +:+ strip_leading_slashes s.
Proof.
  induction s as [|c s [IH1 [n IH2]]]; simpl.
  - split; [reflexivity | now exists 0].
  - destruct (decide (c = "/"%char)) as [->|Hc].
    + split; [exact IH1|]. exists (S n). simpl. now rewrite <- IH2.
    + split; [|now exists 0]. simpl.
      destruct (decide ("/"%char = c)); [congruence | reflexivity].
Qed.

Lemma strip_leading_slashes_id (s : string) :
  startsWith s "/" = false -> strip_leading_slashes s = s.
Proof.
  destruct s as [|c s]; simpl; [reflexivity|].
  destruct (decide ("/"%char = c)) as [<-|]; [discriminate|].
  intros _. destruct (decide (c = "/"%char)); congruence.
Qed.

(** The letters of the pattern fold only onto themselves and their
    capitals; the punctuation of the pattern matches only itself. *)
Lemma lower_not_letter (c d : ascii) :
  lower c = d -> (nat_of_ascii d < 97 \/ 122 < nat_of_ascii d) -> c = d.
Proof.
  unfold lower. intros H Hd.
  destruct ((65 <=? nat_of_ascii c) && (nat_of_ascii c <=? 90)) eqn:E;
    [|exact H].
  apply andb_true_iff in E as [E1 E2].
  apply Nat.leb_le in E1, E2. subst d.
  rewrite nat_ascii_embedding in Hd by lia. lia.
Qed.

Lemma istartsWith_spec (s p : string) :
  istartsWith s p = true <->
  exists head rest, s = head +:+ rest /\ to_lower head = to_lower p.
Proof.
  split.
  - revert s. induction p as [|c p IH]; intros s H.
    + now exists "", s.
    + destruct s as [|d s]; simpl in H; [discriminate|].
      destruct (decide (lower c = lower d)) as [E|]; [|discriminate].
      destruct (IH _ H) as (head & rest & -> & Hh).
      exists (String d head), rest. simpl. now rewrite Hh, E.
  - intros (head & rest & -> & Hh). revert head Hh.
    induction p as [|c p IH]; intros head Hh; [reflexivity|].
    destruct head as [|d head]; simpl in Hh; [discriminate|].
    injection Hh as Hd Hh. simpl.
    destruct (decide (lower c = lower d)); [now apply IH | congruence].
Qed.

(** The regular-expression test holds exactly of the strings made of a
    scheme that reads [http] or [https] whatever the case of its letters,
    followed by [://]. *)
Lemma test_http_spec (s : string) :
  test_http s = true <->
  exists scheme rest,
    s = scheme +:+ "://" +:+ rest /\
    (to_lower scheme = "http" \/ to_lower scheme = "https").
Proof.
  unfold test_http. rewrite orb_true_iff, !istartsWith_spec. split.
  - intros [(head & rest & -> & H) | (head & rest & -> & H)].
    + destruct head as [|c1 [|c2 [|c3 [|c4 [|c5 [|c6 [|c7 [|]]]]]]]];
        simpl in H; try discriminate.
      injection H as H1 H2 H3 H4 H5 H6 H7.
      apply lower_not_letter in H5, H6, H7; [|left; vm_compute; lia..]. subst.
      exists (String c1 (String c2 (String c3 (String c4 "")))), rest.
      split; [reflexivity|]. left. simpl. now rewrite H1, H2, H3, H4.
    + destruct head as [|c1 [|c2 [|c3 [|c4 [|c5 [|c6 [|c7 [|c8 [|]]]]]]]]];
        simpl in H; try discriminate.
      injection H as H1 H2 H3 H4 H5 H6 H7 H8.
      apply lower_not_letter in H6, H7, H8; [|left; vm_compute; lia..]. subst.
      exists (String c1 (String c2 (String c3 (String c4 (String c5 ""))))), rest.
      split; [reflexivity|]. right. simpl. now rewrite H1, H2, H3, H4, H5.
  - intros (scheme & rest & -> & [H | H]).
    + left. exists (scheme +:+ "://"), rest. split.
      * now rewrite append_assoc.
      * destruct scheme as [|c1 [|c2 [|c3 [|c4 [|]]]]]; simpl in H;
          try discriminate.
        injection H as H1 H2 H3 H4. simpl. now rewrite H1, H2, H3, H4.
    + right. exists (scheme +:+ "://"), rest. split.
      * now rewrite append_assoc.
      * destruct scheme as [|c1 [|c2 [|c3 [|c4 [|c5 [|]]]]]]; simpl in H;
          try discriminate.
        injection H as H1 H2 H3 H4 H5. simpl. now rewrite H1, H2, H3, H4, H5.
Qed.

(** ** C4: absolute URLs *)

(** C4. An image reference that is an absolute URL -- a scheme reading
    [http] or [https] in any letter case, then [://] -- is returned
    unchanged by each copy of [getImageUrl], for every avatar flag and
    every API base. *)
Theorem getImageUrl_absolute_unchanged
    (scheme rest apiBase : string) (isUserAvatar : bool) :
  to_lower scheme = "http" \/ to_lower scheme = "https" ->
  let url := scheme +:+ "://" +:+ rest in
  PostDetails.getImageUrl (Some url) apiBase isUserAvatar = Some url /\
  UserDetails.getImageUrl (Some url) apiBase isUserAvatar = Some url /\
  Home.getImageUrl (Some url) apiBase = Some url.
Proof.
  intros H url.
  assert (Ht : test_http url = true).
  { apply test_http_spec. now exists scheme, rest. }
  assert (Hne : exists c u, url = String c u).
  { subst url. destruct scheme as [|c scheme]; simpl.
    - destruct H as [H | H]; discriminate.
    - eauto. }
  destruct Hne as (c & u & E).
  unfold PostDetails.getImageUrl, UserDetails.getImageUrl, Home.getImageUrl.
  rewrite E in *. now rewrite Ht.
Qed.

Lemma getImageUrl_absolute_unchanged_witness :
  PostDetails.getImageUrl (Some "HTTPS://cdn.example/a.png") "http://h" true
    = Some "HTTPS://cdn.example/a.png" /\
  UserDetails.getImageUrl (Some "HTTPS://cdn.example/a.png") "http://h" true
    = Some "HTTPS://cdn.example/a.png" /\
  Home.getImageUrl (Some "HTTPS://cdn.example/a.png") "http://h"
    = Some "HTTPS://cdn.example/a.png".
Proof.
  apply (getImageUrl_absolute_unchanged "HTTPS" "cdn.example/a.png" "http://h" true).
  right. reflexivity.
Defined.

(** ** C10: the theme toggle *)

(** C10. [toggleTheme] sends ['light'] to ['dark'], ['dark'] to
    ['system'] and every other value, ['system'] among them, to
    ['light']; three toggles from any of the three modes give the mode
    back. *)
Theorem toggleTheme_cycle :
  Theme.toggleTheme "light" = "dark" /\
  Theme.toggleTheme "dark" = "system" /\
  Theme.toggleTheme "system" = "light" /\
  (forall current : string,
     current <> "light" -> current <> "dark" ->
     Theme.toggleTheme current = "light") /\
  (forall mode : string,
     mode = "light" \/ mode = "dark" \/ mode = "system" ->
     Theme.toggleTheme (Theme.toggleTheme (Theme.toggleTheme mode)) = mode).
Proof.
  repeat split; try reflexivity.
  - intros current H1 H2. unfold Theme.toggleTheme.
    destruct (decide (current = "light")); [congruence|].
    destruct (decide (current = "dark")); [congruence | reflexivity].
  - intros mode [-> | [-> | ->]]; reflexivity.
Qed.

Lemma toggleTheme_cycle_witness :
  Theme.toggleTheme "auto" = "light" /\
  Theme.toggleTheme (Theme.toggleTheme (Theme.toggleTheme "dark")) = "dark".
Proof.
  destruct toggleTheme_cycle as (_ & _ & _ & Hother & Hcycle). split.
  - apply Hother; discriminate.
  - apply Hcycle. right. left. reflexivity.
Defined.

(** ** C1 and C5: the copies of [getImageUrl] on relative references *)

Lemma startsWith_avatar_includes_slash (s : string) :
  startsWith s "avatar/" = true -> includes s "/" = true.
Proof. intros [rest ->]%startsWith_spec. reflexivity. Qed.

Lemma startsWith_storage_not_avatar (s : string) :
  startsWith s "storage/garbage_post_images/" = true ->
  startsWith s "avatar/" = false /\ startsWith s "garbage_post_images/" = false /\
  includes s "/" = true.
Proof. intros [rest ->]%startsWith_spec. repeat split; reflexivity. Qed.

Lemma startsWith_garbage_not_avatar (s : string) :
  startsWith s "garbage_post_images/" = true ->
  startsWith s "avatar/" = false /\ includes s "/" = true.
Proof. intros [rest ->]%startsWith_spec. split; reflexivity. Qed.

(** The three copies on a non-empty reference that is not absolute: the
    bodies after the two early returns. *)
Lemma PostDetails_getImageUrl_relative (s apiBase : string) (flag : bool) :
  s <> "" -> test_http s = false ->
  PostDetails.getImageUrl (Some s) apiBase flag =
  let cleaned := strip_leading_slashes s in
  if flag || startsWith cleaned "avatar/" then
    if negb (includes cleaned "/") then
      Some (apiBase +:+ "/api/users/" +:+ cleaned +:+ "/avatar")
    else Some (apiBase +:+ "/storage/" +:+ cleaned)
  else if startsWith cleaned "storage/garbage_post_images/" then
    Some (apiBase +:+ "/" +:+ cleaned)
  else Some (apiBase +:+ "/storage/" +:+ cleaned).
Proof.
  intros Hne Hh. unfold PostDetails.getImageUrl.
  destruct s as [|c s]; [congruence|]. rewrite Hh. cbv zeta.
  repeat match goal with |- context [if ?b then _ else _] =>
    destruct b; try reflexivity end.
Qed.

Lemma UserDetails_getImageUrl_relative (s apiBase : string) (flag : bool) :
  s <> "" -> test_http s = false ->
  UserDetails.getImageUrl (Some s) apiBase flag =
  let cleaned := strip_leading_slashes s in
  if flag || startsWith cleaned "avatar/" then
    if negb (includes cleaned "/") then
      Some (apiBase +:+ "/api/users/" +:+ cleaned +:+ "/avatar")
    else Some (apiBase +:+ "/storage/" +:+ cleaned)
  else Some (apiBase +:+ "/storage/" +:+ cleaned).
Proof.
  intros Hne Hh. unfold UserDetails.getImageUrl.
  destruct s as [|c s]; [congruence|]. now rewrite Hh.
Qed.

Lemma Home_getImageUrl_relative (s apiBase : string) :
  s <> "" -> test_http s = false ->
  Home.getImageUrl (Some s) apiBase =
  let cleaned := strip_leading_slashes s in
  if startsWith cleaned "storage/garbage_post_images/" then
    Some (apiBase +:+ "/" +:+ cleaned)
  else if startsWith cleaned "garbage_post_images/" then
    Some (apiBase +:+ "/storage/" +:+ cleaned)
  else if startsWith cleaned "avatar/" then
    Some (apiBase +:+ "/storage/" +:+ cleaned)
  else if negb (includes cleaned "/") then
    Some (apiBase +:+ "/storage/avatar/" +:+ cleaned)
  else Some (apiBase +:+ "/" +:+ cleaned).
Proof.
  intros Hne Hh. unfold Home.getImageUrl.
  destruct s as [|c s]; [congruence|]. now rewrite Hh.
Qed.

(** Case analysis on the tests the copies make on the cleaned path; the
    outcomes of the tests are rewritten in the goal. *)
Ltac path_cases cleaned :=
  let H := fresh "H" in
  destruct (startsWith cleaned "storage/garbage_post_images/") eqn:H;
  [ destruct (startsWith_storage_not_avatar _ H) as (-> & -> & ->)
  | clear H; destruct (startsWith cleaned "garbage_post_images/") eqn:H;
    [ destruct (startsWith_garbage_not_avatar _ H) as (-> & ->)
    | clear H; destruct (startsWith cleaned "avatar/") eqn:H;
      [ rewrite (startsWith_avatar_includes_slash _ H)
      | destruct (includes cleaned "/") ] ] ].

(** C1. Every copy, on a non-empty reference that is not an absolute URL,
    strips the leading slashes and returns one URL built on the cleaned
    path. Post details: [apiBase/api/users/path/avatar] for an
    avatar-flagged path without a slash, [apiBase/path] for an unflagged
    path under [storage/garbage_post_images/], [apiBase/storage/path]
    otherwise. User details: the same without the
    [storage/garbage_post_images/] case. Home screen (no flag):
    [apiBase/path] under [storage/garbage_post_images/],
    [apiBase/storage/path] under [garbage_post_images/] and [avatar/],
    [apiBase/storage/avatar/path] for a path without a slash,
    [apiBase/path] otherwise. *)
Theorem getImageUrl_candidates
    (imagePath apiBase : string) (isUserAvatar : bool) :
  imagePath <> "" -> test_http imagePath = false ->
  let cleaned := strip_leading_slashes imagePath in
  let storage := Some (apiBase +:+ "/storage/" +:+ cleaned) in
  let root := Some (apiBase +:+ "/" +:+ cleaned) in
  let users := Some (apiBase +:+ "/api/users/" +:+ cleaned +:+ "/avatar") in
  let avatars := Some (apiBase +:+ "/storage/avatar/" +:+ cleaned) in
  let post := PostDetails.getImageUrl (Some imagePath) apiBase isUserAvatar in
  let user := UserDetails.getImageUrl (Some imagePath) apiBase isUserAvatar in
  let home := Home.getImageUrl (Some imagePath) apiBase in
  (startsWith cleaned "/" = false /\
   exists n, imagePath = slashes n +:+ cleaned) /\
  (* post details *)
  (isUserAvatar = true -> includes cleaned "/" = false -> post = users) /\
  (isUserAvatar = false ->
   startsWith cleaned "storage/garbage_post_images/" = true -> post = root) /\
  (isUserAvatar = false \/ includes cleaned "/" = true ->
   isUserAvatar = true \/
   startsWith cleaned "storage/garbage_post_images/" = false ->
   post = storage) /\
  (* user details *)
  (isUserAvatar = true -> includes cleaned "/" = false -> user = users) /\
  (isUserAvatar = false \/ includes cleaned "/" = true -> user = storage) /\
  (* home screen *)
  (startsWith cleaned "storage/garbage_post_images/" = true -> home = root) /\
  (startsWith cleaned "garbage_post_images/" = true \/
   startsWith cleaned "avatar/" = true -> home = storage) /\
  (includes cleaned "/" = false -> home = avatars) /\
  (includes cleaned "/" = true ->
   startsWith cleaned "storage/garbage_post_images/" = false ->
   startsWith cleaned "garbage_post_images/" = false ->
   startsWith cleaned "avatar/" = false -> home = root).
Proof.
  intros Hne Hh cleaned storage root users avatars post user home.
  split; [apply strip_leading_slashes_spec|].
  subst post user home.
  rewrite PostDetails_getImageUrl_relative, UserDetails_getImageUrl_relative,
    Home_getImageUrl_relative by assumption.
  cbv zeta. fold cleaned. subst storage root users avatars.
  path_cases cleaned; destruct isUserAvatar; simpl;
    repeat split; intros; try reflexivity; try discriminate;
    repeat match goal with H : _ \/ _ |- _ => destruct H end;
    discriminate.
Qed.

Lemma getImageUrl_candidates_witness :
  PostDetails.getImageUrl (Some "/42") "http://h" true
    = Some "http://h/api/users/42/avatar" /\
  Home.getImageUrl (Some "/42") "http://h" = Some "http://h/storage/avatar/42".
Proof.
  destruct (getImageUrl_candidates "/42" "http://h" true)
    as (_ & Hp & _ & _ & _ & _ & _ & _ & Hh & _);
    [discriminate | reflexivity |].
  split; [apply Hp | apply Hh]; reflexivity.
Defined.

(** C1, as first stated, fails: the home-screen copy sends a path without
    a slash to [/storage/avatar/], which is none of the three templates,
    and an empty reference gives no URL at all. *)
Lemma getImageUrl_candidates_counterexample :
  let home := Home.getImageUrl (Some "pic.jpg") "http://h" in
  test_http "pic.jpg" = false /\
  strip_leading_slashes "pic.jpg" = "pic.jpg" /\
  home = Some "http://h/storage/avatar/pic.jpg" /\
  home <> Some ("http://h" +:+ "/storage/" +:+ "pic.jpg") /\
  home <> Some ("http://h" +:+ "/" +:+ "pic.jpg") /\
  home <> Some ("http://h" +:+ "/api/users/" +:+ "pic.jpg" +:+ "/avatar") /\
  test_http "" = false /\
  PostDetails.getImageUrl (Some "") "http://h" false = None /\
  UserDetails.getImageUrl (Some "") "http://h" false = None /\
  Home.getImageUrl (Some "") "http://h" = None.
Proof. repeat split; try reflexivity; discriminate. Qed.

(** C5. The copies agree on absent and empty references and on absolute
    URLs. On the other references the post-details and user-details
    copies agree when the reference is avatar-flagged or its cleaned path
    is not under [storage/garbage_post_images/]; the home-screen copy
    agrees with the post-details copy called without the flag when the
    cleaned path is under [avatar/], [garbage_post_images/] or
    [storage/garbage_post_images/], and with the user-details copy in the
    first two cases. *)
Theorem getImageUrl_copies_agree
    (imagePath : option string) (apiBase : string) (isUserAvatar : bool) :
  let cleaned := strip_leading_slashes (or_else imagePath "") in
  let post := PostDetails.getImageUrl imagePath apiBase in
  let user := UserDetails.getImageUrl imagePath apiBase in
  let home := Home.getImageUrl imagePath apiBase in
  (truthy imagePath = false \/ test_http (or_else imagePath "") = true ->
   post isUserAvatar = user isUserAvatar /\ user isUserAvatar = home) /\
  (isUserAvatar = true \/
   startsWith cleaned "storage/garbage_post_images/" = false ->
   post isUserAvatar = user isUserAvatar) /\
  (startsWith cleaned "avatar/" = true \/
   startsWith cleaned "garbage_post_images/" = true ->
   home = post false /\ home = user false) /\
  (startsWith cleaned "storage/garbage_post_images/" = true ->
   home = post false).
Proof.
  intros cleaned post user home. subst post user home.
  destruct imagePath as [[|c s]|]; try (repeat split; reflexivity).
  set (p := String c s) in *.
  assert (Hne : p <> "") by discriminate.
  change (or_else (Some p) "") with p in *.
  destruct (test_http p) eqn:Hh.
  { unfold PostDetails.getImageUrl, UserDetails.getImageUrl, Home.getImageUrl.
    subst p. rewrite Hh. repeat split; reflexivity. }
  rewrite !PostDetails_getImageUrl_relative, !UserDetails_getImageUrl_relative,
    Home_getImageUrl_relative by assumption.
  cbv zeta. fold cleaned.
  path_cases cleaned; destruct isUserAvatar; simpl;
    repeat split; intros; try reflexivity; try discriminate;
    repeat match goal with H : _ \/ _ |- _ => destruct H end;
    discriminate.
Qed.

Lemma getImageUrl_copies_agree_witness :
  PostDetails.getImageUrl (Some "/avatar/7.png") "http://h" false
    = UserDetails.getImageUrl (Some "/avatar/7.png") "http://h" false /\
  Home.getImageUrl (Some "/avatar/7.png") "http://h"
    = PostDetails.getImageUrl (Some "/avatar/7.png") "http://h" false.
Proof.
  destruct (getImageUrl_copies_agree (Some "/avatar/7.png") "http://h" false)
    as (_ & Hpu & Hh & _).
  split; [apply Hpu; right; reflexivity | apply Hh; left; reflexivity].
Defined.

(** C5, as first stated, fails: the copies disagree on a path under
    [storage/garbage_post_images/] and on a path without a slash. *)
Lemma getImageUrl_copies_agree_counterexample :
  ~ (forall (imagePath : option string) (apiBase : string) (isUserAvatar : bool),
       PostDetails.getImageUrl imagePath apiBase isUserAvatar
         = UserDetails.getImageUrl imagePath apiBase isUserAvatar) /\
  ~ (forall (imagePath : option string) (apiBase : string),
       Home.getImageUrl imagePath apiBase
         = UserDetails.getImageUrl imagePath apiBase false) /\
  PostDetails.getImageUrl (Some "storage/garbage_post_images/a.jpg") "http://h" false
    = Some "http://h/storage/garbage_post_images/a.jpg" /\
  UserDetails.getImageUrl (Some "storage/garbage_post_images/a.jpg") "http://h" false
    = Some "http://h/storage/storage/garbage_post_images/a.jpg" /\
  Home.getImageUrl (Some "a.jpg") "http://h" = Some "http://h/storage/avatar/a.jpg" /\
  UserDetails.getImageUrl (Some "a.jpg") "http://h" false
    = Some "http://h/storage/a.jpg" /\
  PostDetails.getImageUrl (Some "a.jpg") "http://h" false
    = Some "http://h/storage/a.jpg".
Proof.
  repeat split; try reflexivity.
  - intros H.
    specialize (H (Some "storage/garbage_post_images/a.jpg") "http://h" false).
    discriminate H.
  - intros H. specialize (H (Some "a.jpg") "http://h"). discriminate H.
Qed.

(** ** C2 and C3: the retry cursor and the fallback avatar *)



Section HookFacts.
Variable caseTable : N -> text.
Variable BASE_URL : string.
Variable name : option text.
Variable flag : bool.

Abbreviation handler path :=
  (UserDetails.handleImageError caseTable BASE_URL path name flag).
Abbreviation run path n start :=
  (Nat.iter n (fun o => o ≫= handler path) start).

Lemma handleImageError_retry_step (path : string) (st : hook) :
  path <> "" -> retryCount st < 3 ->
  handler (Some path) st =
  Some {| imageSource :=
            Some (retry_candidate BASE_URL (strip_leading_slashes path) flag
                    (retryCount st));
          imageError := imageError st;
          retryCount := retryCount st + 1 |}.
Proof.
  intros Hne Hlt. unfold UserDetails.handleImageError, UserDetails.maxRetries.
  destruct path as [|c path]; [congruence|].
  change (length UserDetails.STORAGE_PATHS) with 3.
  destruct (Nat.ltb_spec (retryCount st) 3) as [_|]; [|lia].
  change (default "" (Some (String c path))) with (String c path).
  cbn [andb truthy].
  destruct (retryCount st) as [|[|[|k]]]; [| | |lia]; destruct flag; reflexivity.
Qed.

Lemma handleImageError_exhausted (path : option string) (st : hook) :
  truthy path = false \/ 3 <= retryCount st ->
  handler path st = UserDetails.useFallbackAvatar caseTable name st.
Proof.
  intros H. unfold UserDetails.handleImageError, UserDetails.maxRetries.
  change (length UserDetails.STORAGE_PATHS) with 3.
  destruct H as [-> | H].
  - now rewrite andb_false_r.
  - destruct (Nat.ltb_spec (retryCount st) 3); [lia | reflexivity].
Qed.

Lemma useFallbackAvatar_spec (st : hook) :
  UserDetails.useFallbackAvatar caseTable name st
  = (fun url => fallback_state url (retryCount st)) <$> fallbackUrl caseTable name.
Proof.
  unfold UserDetails.useFallbackAvatar, UserDetails.getInitial, fallbackUrl.
  destruct name as [[|u s]|]; [reflexivity | | reflexivity].
  cbn [truthy_text text_or negb upperInitial].
  now destruct (encodeURIComponent (upper_unit caseTable u)).
Qed.

Lemma run_thrown (path : option string) (n : nat) : run path n None = None.
Proof. induction n as [|n IH]; simpl; [reflexivity | now rewrite IH]. Qed.

(** The first three failures walk through the candidates. *)
Lemma run_retries (path : string) (st0 : hook) (k : nat) :
  path <> "" -> retryCount st0 = 0 -> k < 3 ->
  run (Some path) (S k) (Some st0)
  = Some {| imageSource :=
              Some (retry_candidate BASE_URL (strip_leading_slashes path) flag k);
            imageError := imageError st0;
            retryCount := S k |}.
Proof.
  intros Hne H0 Hk. induction k as [|k IH].
  - simpl. rewrite handleImageError_retry_step by (assumption || lia).
    now rewrite H0.
  - change (run (Some path) (S (S k)) (Some st0))
      with (run (Some path) (S k) (Some st0) ≫= handler (Some path)).
    rewrite IH by lia. simpl.
    rewrite handleImageError_retry_step by (assumption || (simpl; lia)).
    simpl. do 2 f_equal. lia.
Qed.

(** From the fourth failure on the fallback is in place, or the handler
    has thrown. *)
Lemma run_exhausted (path : string) (st0 : hook) (n : nat) :
  path <> "" -> retryCount st0 = 0 -> 4 <= n ->
  run (Some path) n (Some st0)
  = (fun url => fallback_state url 3) <$> fallbackUrl caseTable name.
Proof.
  intros Hne H0 Hn. induction Hn as [|n Hn IH].
  - change (run (Some path) 4 (Some st0))
      with (run (Some path) 3 (Some st0) ≫= handler (Some path)).
    rewrite run_retries by (assumption || lia). simpl.
    rewrite handleImageError_exhausted by (right; simpl; lia).
    apply useFallbackAvatar_spec.
  - change (run (Some path) (S n) (Some st0))
      with (run (Some path) n (Some st0) ≫= handler (Some path)).
    rewrite IH. destruct (fallbackUrl caseTable name) as [url|] eqn:E;
      [|reflexivity].
    simpl. rewrite handleImageError_exhausted by (right; simpl; lia).
    rewrite useFallbackAvatar_spec, E. reflexivity.
Qed.


(** The post-details hook mounts when its render does not throw. *)
Lemma PostDetails_initial_spec (path : option string) :
  PostDetails.initial caseTable BASE_URL path name flag
  = (fun url =>
       {| imageSource :=
            if truthy path then PostDetails.getImageUrl path BASE_URL flag
            else Some url;
          imageError := false;
          retryCount := 0 |}) <$> fallbackUrl caseTable name.
Proof.
  unfold PostDetails.initial, PostDetails.initialChar, fallbackUrl.
  destruct name as [[|u s]|]; [reflexivity | | reflexivity].
  cbn [truthy_text text_or negb upperInitial].
  now destruct (encodeURIComponent (upper_unit caseTable u)).
Qed.

Lemma PostDetails_mounted_spec (path : option string) :
  PostDetails.mounted caseTable BASE_URL path name flag
  = (fun url =>
       if truthy path
       then {| imageSource := PostDetails.getImageUrl path BASE_URL flag;
               imageError := false;
               retryCount := 0 |}
       else fallback_state url 0) <$> fallbackUrl caseTable name.
Proof.
  unfold PostDetails.mounted. rewrite PostDetails_initial_spec.
  destruct (fallbackUrl caseTable name) as [url|] eqn:E; [|reflexivity].
  simpl. unfold PostDetails.effect.
  destruct (truthy path); [reflexivity|].
  change (PostDetails.useFallbackAvatar caseTable name ?st)
    with (UserDetails.useFallbackAvatar caseTable name st).
  rewrite useFallbackAvatar_spec, E. reflexivity.
Qed.

Lemma PostDetails_failures_run (path : option string) (n : nat) :
  PostDetails.failures caseTable BASE_URL path name flag n
  = run path n (PostDetails.mounted caseTable BASE_URL path name flag).
Proof. reflexivity. Qed.


Lemma mounted_retryCount (path : option string) :
  retryCount (UserDetails.mounted BASE_URL path flag) = 0.
Proof.
  unfold UserDetails.mounted, UserDetails.effect.
  destruct (truthy path); reflexivity.
Qed.

(** Both hooks from the first failure on, for a non-empty reference. *)
Lemma failures_retries (path : string) (k : nat) :
  path <> "" -> k < 3 ->
  let st :=
    {| imageSource :=
         Some (retry_candidate BASE_URL (strip_leading_slashes path) flag k);
       imageError := false;
       retryCount := S k |} in
  UserDetails.failures caseTable BASE_URL (Some path) name flag (S k) = Some st /\
  PostDetails.failures caseTable BASE_URL (Some path) name flag (S k)
  = (fun _ => st) <$> fallbackUrl caseTable name.
Proof.
  intros Hne Hk st. split.
  - unfold UserDetails.failures.
    rewrite run_retries by (assumption || apply mounted_retryCount).
    destruct path; [congruence | reflexivity].
  - rewrite PostDetails_failures_run, PostDetails_mounted_spec.
    destruct (fallbackUrl caseTable name) as [url|]; [|apply run_thrown].
    cbn [fmap option_fmap option_map].
    destruct path as [|c path]; [congruence|]. cbn [truthy].
    now rewrite run_retries by (reflexivity || discriminate || assumption).
Qed.

Lemma failures_exhausted (path : string) (n : nat) :
  path <> "" -> 4 <= n ->
  UserDetails.failures caseTable BASE_URL (Some path) name flag n
  = (fun url => fallback_state url 3) <$> fallbackUrl caseTable name /\
  PostDetails.failures caseTable BASE_URL (Some path) name flag n
  = (fun url => fallback_state url 3) <$> fallbackUrl caseTable name.
Proof.
  intros Hne Hn. split.
  - unfold UserDetails.failures.
    now rewrite run_exhausted by (assumption || apply mounted_retryCount).
  - rewrite PostDetails_failures_run, PostDetails_mounted_spec.
    destruct (fallbackUrl caseTable name) as [url|] eqn:E; [|apply run_thrown].
    cbn [fmap option_fmap option_map].
    destruct path as [|c path]; [congruence|]. cbn [truthy].
    rewrite run_exhausted by (reflexivity || discriminate || assumption).
    now rewrite E.
Qed.


End HookFacts.

(** *** The alternative of the home-screen hook *)

Lemma split_nonempty (sep : ascii) (s : string) : split sep s <> [].
Proof.
  destruct s as [|c s]; simpl; [discriminate|].
  destruct (decide (c = sep)); [discriminate|].
  destruct (split sep s); discriminate.
Qed.

Lemma split_single (sep : ascii) (s h : string) : split sep s = [h] -> h = s.
Proof.
  revert h. induction s as [|c s IH]; intros h; simpl.
  - now intros [= <-].
  - destruct (decide (c = sep)).
    + intros [= _ E]. now apply split_nonempty in E.
    + pose proof (split_nonempty sep s) as Hn.
      destruct (split sep s) as [|k [|k' t]]; [congruence | |];
        intros E; [|discriminate E].
      injection E as <-. f_equal. now apply IH.
Qed.

Lemma no_slash_tail (c : ascii) (s : string) :
  includes (String c s) "/" = false -> c <> "/"%char /\ includes s "/" = false.
Proof.
  simpl. destruct (decide ("/"%char = c)) as [<- | Hc]; [discriminate|].
  simpl. intros H. split; [congruence | exact H].
Qed.

Lemma no_slash_split (s : string) :
  includes s "/" = false -> split "/" s = [s].
Proof.
  induction s as [|c s IH]; intros H; [reflexivity|].
  apply no_slash_tail in H as [Hc H]. simpl.
  destruct (decide (c = "/"%char)); [congruence|]. now rewrite IH.
Qed.

Lemma split_append_slash (a b : string) :
  split "/" (a +:+ String "/" b) = split "/" a ++ split "/" b.
Proof.
  induction a as [|c a IH]; [reflexivity|].
  cbn [String.append split].
  destruct (decide (c = "/"%char)); [now rewrite IH|].
  rewrite IH. pose proof (split_nonempty "/" a) as Hn.
  destruct (split "/" a); [congruence | reflexivity].
Qed.

(** The last element of [split] is the last segment, and nothing else
    is. *)
Lemma split_last_segment (s : string) :
  last_segment s (List.last (split "/" s) "").
Proof.
  induction s as [|c s [IH1 IH2]].
  - split; [reflexivity | now left].
  - simpl split. pose proof (split_nonempty "/" s) as Hn.
    destruct (decide (c = "/"%char)) as [-> | Hc].
    + destruct (split "/" s) as [|h t] eqn:E; [congruence|].
      change (List.last ("" :: h :: t) "") with (List.last (h :: t) "").
      split; [exact IH1|]. right.
      destruct IH2 as [E2 | [dir E2]].
      * exists "". exact (f_equal (String "/") E2).
      * exists (String "/" dir). exact (f_equal (String "/") E2).
    + destruct (split "/" s) as [|h [|h' t]] eqn:E; [congruence | |].
      * apply split_single in E. subst h. simpl in IH1 |- *. split.
        -- change (includes (String c s) "/")
             with ((if decide ("/"%char = c) then true else false)
                   || includes s "/").
           destruct (decide ("/"%char = c)); [congruence | exact IH1].
        -- now left.
      * change (List.last (String c h :: h' :: t) "")
          with (List.last (h :: h' :: t) "").
        split; [exact IH1|]. right.
        destruct IH2 as [E2 | [dir E2]].
        -- rewrite <- E2 in IH1. apply no_slash_split in IH1. congruence.
        -- exists (String c dir). exact (f_equal (String c) E2).
Qed.

Lemma last_segment_unique (url file : string) :
  last_segment url file -> file = List.last (split "/" url) "".
Proof.
  intros [Hf [-> | [dir ->]]].
  - now rewrite no_slash_split.
  - change ("/" +:+ file) with (String "/" file).
    rewrite split_append_slash, (no_slash_split file) by assumption.
    symmetry. apply last_last.
Qed.

Lemma alternative_no_file (BASE_URL : string) (paths : list string) (url : string) :
  List.last (split "/" url) "" = "" ->
  Home.alternative BASE_URL paths url = None.
Proof.
  intros E. induction paths as [|p paths IH]; simpl; [reflexivity|].
  rewrite E, IH. now destruct (includes url p).
Qed.

Lemma alternative_all_used (BASE_URL : string) (paths : list string) (url : string) :
  Forall (fun p => includes url p = true) paths ->
  Home.alternative BASE_URL paths url = None.
Proof.
  induction 1 as [|p paths Hp _ IH]; simpl; [reflexivity|]. now rewrite Hp.
Qed.

Lemma alternative_first_unused
    (BASE_URL : string) (paths : list string) (url path : string) :
  first_unused paths url path ->
  List.last (split "/" url) "" <> "" ->
  Home.alternative BASE_URL paths url
  = Some (BASE_URL +:+ path +:+ List.last (split "/" url) "").
Proof.
  intros (before & after & -> & Hall & Hno) Hfile.
  induction Hall as [|p before Hp _ IH]; simpl.
  - rewrite Hno.
    destruct (List.last (split "/" url) ""); [congruence | reflexivity].
  - now rewrite Hp.
Qed.

Lemma alternative_spec (BASE_URL : string) (paths : list string)
    (url alt : string) :
  Home.alternative BASE_URL paths url = Some alt ->
  exists path,
    first_unused paths url path /\
    List.last (split "/" url) "" <> "" /\
    alt = BASE_URL +:+ path +:+ List.last (split "/" url) "".
Proof.
  induction paths as [|p paths IH]; simpl; [discriminate|].
  destruct (includes url p) eqn:Ei.
  - intros H. destruct (IH H) as (path & (before & after & -> & Hall & Hno) & Hrest).
    exists path. split; [|exact Hrest].
    exists (p :: before), after. split; [reflexivity|].
    split; [now constructor | exact Hno].
  - destruct (List.last (split "/" url) "") as [|c f] eqn:Ef.
    + simpl. intros H.
      now rewrite (alternative_no_file BASE_URL paths url Ef) in H.
    + simpl. intros [= <-]. exists p. split; [|split; [discriminate | reflexivity]].
      exists [], paths. split; [reflexivity|]. split; [constructor | exact Ei].
Qed.

Lemma alternative_none (BASE_URL : string) (paths : list string) (url : string) :
  Home.alternative BASE_URL paths url = None ->
  List.last (split "/" url) "" = "" \/
  Forall (fun p => includes url p = true) paths.
Proof.
  induction paths as [|p paths IH]; simpl; [now right|].
  destruct (includes url p) eqn:Ei.
  - intros H. destruct (IH H) as [? | ?]; [now left | right; now constructor].
  - destruct (List.last (split "/" url) "") as [|c f]; [now left | discriminate].
Qed.












(** Two display names outside ASCII. The initial of [élan] is written
    as the two UTF-8 bytes of its capital. A name that begins with
    U+1F600 has a lone surrogate as its first code unit: the
    user-details hook walks through the three candidates and its
    handler throws at the fourth failure, and the post-details hook
    throws at its first render. *)
Example initials_outside_ascii :
  fallbackUrl (fun u => [u]) (Some [233; 108; 97; 110]%N)
  = Some "https://ui-avatars.com/api/?name=%C3%89&background=random&color=fff&size=100" /\
  UserDetails.failures (fun u => [u]) "http://h" (Some "a.jpg")
    (Some [55357; 56832; 98]%N) true 3
  = Some (Hook (Some "http://h/public/storage/a.jpg") false 3) /\
  UserDetails.failures (fun u => [u]) "http://h" (Some "a.jpg")
    (Some [55357; 56832; 98]%N) true 4 = None /\
  PostDetails.initial (fun u => [u]) "http://h" (Some "a.jpg")
    (Some [55357; 56832; 98]%N) true = None.
Proof. repeat split; reflexivity. Qed.

(** ** C6: the keys of the key-value store *)

Section StoreKeys.
Variable t : string -> string.
Variable stringify : gmap string App.vote -> string.
Variable parse : string -> option (gmap string App.vote).

Abbreviation step := (App.step t stringify parse).
Abbreviation run := (App.run t stringify parse).

Lemma themeEffect_store (ok : bool) (st : App.app) :
  App.store (App.themeEffect ok st) = App.store st \/
  App.store (App.themeEffect ok st)
  = <["theme_preference" := App.themeMode st]> (App.store st).
Proof.
  unfold App.themeEffect, App.saveThemePreference.
  destruct (bool_decide _); [|now left].
  destruct ok; [now right | now left].
Qed.

(** Whatever the replies, [handleVote] leaves the store alone: its
    [token] is [null] and the function returns before the requests. *)
Lemma handleVote_store (ok : bool) (pollId option_id : string)
    (reply : http (option string)) (st : App.app) :
  App.store (App.handleVote t stringify ok pollId option_id reply st)
  = App.store st.
Proof. reflexivity. Qed.

(** With a token in place of the constant, the same body would write
    the votes under [user_poll_votes]. *)
Remark handleVote_body_signed_in (pollId option_id : string) (st : App.app) :
  App.store
    (App.handleVote_body t stringify (Some "tkn") true pollId option_id
       (Ok (Some "9")) st)
  !! App.LOCAL_VOTES_KEY <> None.
Proof.
  unfold App.handleVote_body. simpl.
  destruct (truthy (App.voteId _)); simpl;
    rewrite lookup_insert_eq; discriminate.
Qed.

Lemma step_store (st : App.app) (o : App.operation) :
  App.store (step st o) = App.store st \/
  exists value, App.store (step st o) = <["theme_preference" := value]> (App.store st).
Proof.
  destruct o as [ok | ok | | | ok pollId option_id reply | reply |]; simpl.
  - unfold App.toggleTheme.
    destruct (themeEffect_store ok
                (App.set_themeMode (Theme.toggleTheme (App.themeMode st)) st))
      as [E | E]; rewrite E; [now left | right; eauto].
  - unfold App.loadThemePreference.
    destruct (App.store st !! "theme_preference") as [[|c s]|];
      [now left | | now left].
    destruct (themeEffect_store ok (App.set_themeMode (String c s) st))
      as [E | E]; rewrite E; [now left | right; eauto].
  - left. unfold App.loadSavedVotes.
    destruct (App.store st !! App.LOCAL_VOTES_KEY) as [[|c s]|];
      [reflexivity | | reflexivity].
    destruct (parse (String c s)); reflexivity.
  - now left.
  - now left.
  - left. unfold App.login.
    destruct reply as [[[|c s]|]|]; reflexivity.
  - now left.
Qed.

(** C6. Every operation leaves every key of the store other than the
    theme flag as it was; hence, over any sequence of operations, a
    store whose keys are among the theme flag and the auth token keeps
    that property. *)
Theorem store_keys_invariant :
  (forall (st : App.app) (o : App.operation) (key : string),
     key <> "theme_preference" ->
     App.store (step st o) !! key = App.store st !! key) /\
  (forall (st : App.app) (ops : list App.operation),
     dom (App.store st) ⊆ ({["theme_preference"; "auth_token"]} : gset string) ->
     dom (App.store (run st ops)) ⊆ {["theme_preference"; "auth_token"]}).
Proof.
  split.
  - intros st o key Hkey.
    destruct (step_store st o) as [-> | [value ->]]; [reflexivity|].
    now rewrite lookup_insert_ne.
  - intros st ops. revert st. unfold App.run.
    induction ops as [|o ops IH]; intros st Hst; simpl; [exact Hst|].
    apply IH.
    destruct (step_store st o) as [-> | [value ->]]; [exact Hst|].
    rewrite dom_insert_L. apply union_least; [|exact Hst].
    apply singleton_subseteq_l, elem_of_union_l, elem_of_singleton.
    reflexivity.
Qed.

End StoreKeys.

Lemma store_keys_invariant_witness :
  let st := {| App.store := {["auth_token" := "abc"]}; App.themeMode := "system";
               App.userVotes := ∅; App.token := None; App.storedToken := None;
               App.console := [] |} in
  let ops := [App.ToggleTheme true; App.HandleVote true "7" "2" (Ok (Some "9"));
              App.LoadToken] in
  let st' := App.run id (fun _ => "{}") (fun _ => None) st ops in
  App.store st' !! "user_poll_votes" = None /\
  dom (App.store st') ⊆ ({["theme_preference"; "auth_token"]} : gset string).
Proof.
  intros st ops st'.
  destruct (store_keys_invariant id (fun _ => "{}") (fun _ => None)) as [Hkey Hdom].
  split.
  - subst st' ops. unfold App.run. cbn [foldl].
    rewrite !Hkey by discriminate. reflexivity.
  - apply Hdom. subst st. simpl. rewrite dom_singleton_L. set_solver.
Defined.

(** ** C7: failed fetches *)

(** C7. When the request fails, the events fetch, the user-profile fetch
    and the map posts fetch write the error to the console, set their one
    translated error message and leave the loaded data as it was. *)
Theorem fetch_failure_keeps_data (t : string -> string) (err : string) (seen : bool) :
  (forall st : Events.screen,
     let st' := Events.fetchEvents t seen (Failed err) st in
     Events.events st' = Events.events st /\
     Events.heap st' = Events.heap st /\
     Events.error st' = t "events_load_error" /\
     Events.console st' = Events.console st ++ ["Failed to fetch events: " +:+ err]) /\
  (forall (profile_data : Type) (st : UserDetails.screen profile_data),
     let st' := UserDetails.fetchUserProfile profile_data t seen (Failed err) st in
     UserDetails.profile _ st' = UserDetails.profile _ st /\
     UserDetails.error _ st' = t "failed_to_load_profile" /\
     UserDetails.console _ st'
     = UserDetails.console _ st ++ ["Failed to fetch user profile: " +:+ err]) /\
  (forall (number : Type) (isNaN isZero : number -> bool)
          (parseFloat : MapPosts.jsval number -> number)
          (st : MapPosts.screen number),
     let st' := MapPosts.fetchPosts number isNaN isZero parseFloat t seen
                  (Failed err) st in
     MapPosts.posts _ st' = MapPosts.posts _ st /\
     MapPosts.postsError _ st' = t "failed_to_load_map" /\
     MapPosts.console _ st'
     = MapPosts.console _ st ++ ["Failed to fetch posts: " +:+ err]).
Proof.
  split; [|split].
  - intros st. unfold Events.fetchEvents. destruct seen; now repeat split.
  - intros profile_data st. unfold UserDetails.fetchUserProfile.
    destruct seen; now repeat split.
  - intros number isNaN isZero parseFloat st. unfold MapPosts.fetchPosts.
    destruct seen; now repeat split.
Qed.

(** C7, as first stated for every screen fetch, fails: the post-details
    fetch answers a failed request by resetting the loaded post to
    [null], and sets no error message. *)
Lemma fetch_failure_keeps_data_counterexample :
  let st := {| PostDetails.post := Some "post 42"; PostDetails.loading := false;
               PostDetails.refreshing := false; PostDetails.isFavorited := true;
               PostDetails.console := [] |} in
  let st' := PostDetails.fetchPostDetails string Some (Some "42") None
               (Failed "Network Error") (Ok []) st in
  PostDetails.post _ st = Some "post 42" /\
  PostDetails.post _ st' = None /\
  PostDetails.console _ st'
  = ["PostDetailsScreen: Failed to fetch post details Network Error"].
Proof. repeat split. Qed.

(** ** C8: the client-side sort of the events *)

Lemma insert_Permutation (comparefn : Events.event -> Events.event -> option Z)
    (x : Events.event) (l : list Events.event) :
  Permutation (Events.insert comparefn x l) (x :: l).
Proof.
  induction l as [|y l IH]; simpl; [reflexivity|].
  destruct (Events.after (comparefn x y)); [|reflexivity].
  rewrite IH. apply perm_swap.
Qed.

Lemma sort_Permutation (comparefn : Events.event -> Events.event -> option Z)
    (l : list Events.event) :
  Permutation (Events.sort comparefn l) l.
Proof.
  induction l as [|x l IH]; simpl; [reflexivity|].
  fold (Events.sort comparefn l). rewrite insert_Permutation.
  now apply perm_skip.
Qed.

(** Insertion keeps a list ordered by [R] when the compare function
    decides [R] on the elements in hand. *)
Section SortFacts.
Variable comparefn : Events.event -> Events.event -> option Z.
Variable R : Events.event -> Events.event -> Prop.
Variable P : Events.event -> Prop.
Hypothesis R_before :
  forall x y, P x -> P y -> Events.after (comparefn x y) = false -> R x y.
Hypothesis R_after :
  forall x y, P x -> P y -> Events.after (comparefn x y) = true -> R y x.
Hypothesis R_trans :
  forall x y z, P x -> P y -> P z -> R x y -> R y z -> R x z.

Lemma insert_StronglySorted (x : Events.event) (l : list Events.event) :
  P x -> Forall P l -> StronglySorted R l ->
  StronglySorted R (Events.insert comparefn x l).
Proof.
  intros Px. induction l as [|y l IH]; intros HP Hs; simpl.
  - constructor; constructor.
  - apply Forall_cons in HP as [Py HP].
    apply StronglySorted_inv in Hs as [Hs Hy].
    destruct (Events.after (comparefn x y)) eqn:E.
    + constructor; [now apply IH|].
      rewrite insert_Permutation. constructor; [now apply R_after | exact Hy].
    + constructor; [now constructor|].
      assert (Rxy : R x y) by now apply R_before.
      constructor; [exact Rxy|].
      rewrite Forall_forall in Hy, HP |- *. intros z Hz.
      apply (R_trans x y z); auto.
Qed.

Lemma sort_StronglySorted (l : list Events.event) :
  Forall P l -> StronglySorted R (Events.sort comparefn l).
Proof.
  induction l as [|x l IH]; intros HP; simpl; [constructor|].
  apply Forall_cons in HP as [Px HP]. fold (Events.sort comparefn l).
  apply insert_StronglySorted; [exact Px | | now apply IH].
  now rewrite sort_Permutation.
Qed.

End SortFacts.


Lemma sort_by_date_asc (l : list Events.event) :
  Forall has_date l -> StronglySorted not_later (Events.sort Events.by_date_asc l).
Proof.
  apply sort_StronglySorted; unfold has_date, not_later, Events.by_date_asc.
  - intros x y [dx ->] [dy ->]. simpl. intros H%Z.ltb_ge. lia.
  - intros x y [dx ->] [dy ->]. simpl. intros H%Z.ltb_lt. lia.
  - intros x y z [dx ->] [dy ->] [dz ->]. lia.
Qed.

Lemma sort_by_date_desc (l : list Events.event) :
  Forall has_date l ->
  StronglySorted (fun a b => not_later b a) (Events.sort Events.by_date_desc l).
Proof.
  apply sort_StronglySorted; unfold has_date, not_later, Events.by_date_desc.
  - intros x y [dx ->] [dy ->]. simpl. intros H%Z.ltb_ge. lia.
  - intros x y [dx ->] [dy ->]. simpl. intros H%Z.ltb_lt. lia.
  - intros x y z [dx ->] [dy ->] [dz ->]. lia.
Qed.

Lemma sort_by_title (localeCompare : string -> string -> Z) (l : list Events.event) :
  (forall a b, (0 < localeCompare a b)%Z -> (localeCompare b a <= 0)%Z) ->
  (forall a b c, (localeCompare a b <= 0)%Z -> (localeCompare b c <= 0)%Z ->
                 (localeCompare a c <= 0)%Z) ->
  StronglySorted (title_before localeCompare)
    (Events.sort (Events.by_title localeCompare) l).
Proof.
  intros Hanti Htrans.
  apply (sort_StronglySorted _ _ (fun _ => True));
    unfold title_before, Events.by_title.
  - intros x y _ _. simpl. intros H%Z.ltb_ge. exact H.
  - intros x y _ _. simpl. intros H%Z.ltb_lt. now apply Hanti.
  - intros x y z _ _ _. apply Htrans.
  - now apply Forall_forall.
Qed.

Lemma alloc_spec (h : gmap Events.ref (list Events.event))
    (items : list Events.event) :
  exists r, Events.alloc h items = (<[r := items]> h, r) /\ h !! r = None.
Proof.
  exists (fresh (dom h)). split; [reflexivity|].
  apply not_elem_of_dom, is_fresh.
Qed.

Lemma sort_in_place_spec (comparefn : Events.event -> Events.event -> option Z)
    (h : gmap Events.ref (list Events.event)) (r : Events.ref)
    (items : list Events.event) :
  let '(h', r') := Events.sort_in_place comparefn (<[r := items]> h) r in
  r' = r /\ h' !! r = Some (Events.sort comparefn items) /\
  forall r0, r0 <> r -> h' !! r0 = h !! r0.
Proof.
  simpl. split; [reflexivity|]. split.
  - now rewrite lookup_alter_eq, lookup_insert_eq.
  - intros r0 Hr0. rewrite lookup_alter_ne, lookup_insert_ne by congruence.
    reflexivity.
Qed.

(** C8. [sortedEvents] returns a new array holding a permutation of the
    events; the array of the state, and every other array, is left as it
    was. When every event has a valid date, the result ascends by date
    with ['recent'] and descends by date with ['oldest']; with
    ['alphabet'] it is ordered by [localeCompare] on the titles, a missing
    title counting as the empty string ([localeCompare] being a
    consistent comparison). *)
Theorem sortedEvents_sorted_copy
    (localeCompare : string -> string -> Z) (sortBy : string)
    (h : gmap Events.ref (list Events.event)) (events : Events.ref)
    (items : list Events.event) :
  h !! events = Some items ->
  exists h' r result,
    Events.sortedEvents localeCompare sortBy h events = (h', r) /\
    r <> events /\ h !! r = None /\ h' !! r = Some result /\
    h' !! events = Some items /\
    (forall r0, r0 <> r -> h' !! r0 = h !! r0) /\
    Permutation result items /\
    (sortBy = "recent" -> Forall has_date items ->
     StronglySorted not_later result) /\
    (sortBy = "oldest" -> Forall has_date items ->
     StronglySorted (fun a b => not_later b a) result) /\
    (sortBy = "alphabet" ->
     (forall a b, (0 < localeCompare a b)%Z -> (localeCompare b a <= 0)%Z) ->
     (forall a b c, (localeCompare a b <= 0)%Z -> (localeCompare b c <= 0)%Z ->
                    (localeCompare a c <= 0)%Z) ->
     StronglySorted (title_before localeCompare) result).
Proof.
  intros Hev. unfold Events.sortedEvents. rewrite Hev. simpl default.
  destruct (Nat.eqb_spec (length items) 0) as [Hlen | Hlen].
  - apply length_zero_iff_nil in Hlen. subst items.
    destruct (alloc_spec h []) as (r & -> & Hr).
    assert (Hne : r <> events) by congruence.
    exists (<[r := []]> h), r, []. split; [reflexivity|].
    split; [exact Hne|]. split; [exact Hr|].
    split; [apply lookup_insert_eq|].
    split; [now rewrite lookup_insert_ne|].
    split; [intros r0 Hr0; now rewrite lookup_insert_ne|].
    split; [reflexivity|].
    repeat split; intros; constructor.
  - destruct (alloc_spec h items) as (r & -> & Hr).
    assert (Hne : r <> events) by congruence.
    assert (Hcase :
      forall comparefn,
        exists h' result,
          Events.sort_in_place comparefn (<[r := items]> h) r = (h', r) /\
          result = Events.sort comparefn items /\
          h' !! r = Some result /\ h' !! events = Some items /\
          (forall r0, r0 <> r -> h' !! r0 = h !! r0)).
    { intros comparefn.
      pose proof (sort_in_place_spec comparefn h r items) as Hs.
      destruct (Events.sort_in_place comparefn (<[r := items]> h) r)
        as [h' r'].
      destruct Hs as (-> & Hres & Hother).
      exists h', (Events.sort comparefn items).
      repeat split; auto. rewrite Hother by congruence. exact Hev. }
    destruct (decide (sortBy = "recent")) as [-> | Hrecent];
      [|destruct (decide (sortBy = "oldest")) as [-> | Holdest];
        [|destruct (decide (sortBy = "alphabet")) as [-> | Halphabet]]].
    + destruct (Hcase Events.by_date_asc) as (h' & result & -> & -> & H1 & H2 & H3).
      exists h', r, (Events.sort Events.by_date_asc items).
      split; [reflexivity|]. do 5 (split; [assumption|]).
      split; [apply sort_Permutation|].
      split; [intros _; apply sort_by_date_asc|].
      split; intros; discriminate.
    + destruct (Hcase Events.by_date_desc) as (h' & result & -> & -> & H1 & H2 & H3).
      exists h', r, (Events.sort Events.by_date_desc items).
      split; [reflexivity|]. do 5 (split; [assumption|]).
      split; [apply sort_Permutation|].
      split; [intros; discriminate|].
      split; [intros _; apply sort_by_date_desc | intros; discriminate].
    + destruct (Hcase (Events.by_title localeCompare))
        as (h' & result & -> & -> & H1 & H2 & H3).
      exists h', r, (Events.sort (Events.by_title localeCompare) items).
      split; [reflexivity|]. do 5 (split; [assumption|]).
      split; [apply sort_Permutation|].
      split; [intros; discriminate|].
      split; [intros; discriminate | intros _; apply sort_by_title].
    + exists (<[r := items]> h), r, items.
      split; [reflexivity|]. split; [exact Hne|]. split; [exact Hr|].
      split; [apply lookup_insert_eq|].
      split; [now rewrite lookup_insert_ne|].
      split; [intros r0 Hr0; now rewrite lookup_insert_ne|].
      split; [reflexivity|].
      repeat split; intros; congruence.
Qed.

Lemma sortedEvents_sorted_copy_witness :
  let e := fun d : Z => Events.Event (Some d) None in
  let h : gmap Events.ref (list Events.event) :=
    {[1%positive := [e 30%Z; e 10%Z; e 20%Z]]} in
  exists h' r result,
    Events.sortedEvents (fun _ _ => 0%Z) "recent" h 1%positive = (h', r) /\
    h' !! 1%positive = Some [e 30%Z; e 10%Z; e 20%Z] /\
    h' !! r = Some result /\
    Permutation result [e 30%Z; e 10%Z; e 20%Z] /\
    StronglySorted not_later result.
Proof.
  intros e h.
  destruct (sortedEvents_sorted_copy (fun _ _ => 0%Z) "recent" h 1%positive
              [e 30%Z; e 10%Z; e 20%Z] eq_refl)
    as (h' & r & result & E & _ & _ & Hr & Hev & _ & Hperm & Hrecent & _).
  exists h', r, result. repeat split; try assumption.
  apply Hrecent; [reflexivity|].
  repeat constructor; eexists; reflexivity.
Defined.

(** C8, as first stated for every list, fails when a date is invalid: the
    compare function then answers [NaN], which the sort takes as equal,
    and the event without a valid date keeps a later event ahead of an
    earlier one. *)
Lemma sortedEvents_sorted_copy_counterexample :
  let e := fun d : option Z => Events.Event d None in
  let h : gmap Events.ref (list Events.event) :=
    {[1%positive := [e (Some 2%Z); e None; e (Some 1%Z)]]} in
  let '(h', r) := Events.sortedEvents (fun _ _ => 0%Z) "recent" h 1%positive in
  Events.by_date_asc (e (Some 2%Z)) (e None) = None /\
  Events.by_date_asc (e None) (e (Some 1%Z)) = None /\
  h' !! r = Some [e (Some 2%Z); e None; e (Some 1%Z)] /\
  ~ StronglySorted not_later [e (Some 2%Z); e None; e (Some 1%Z)].
Proof.
  repeat split.
  intros H. apply StronglySorted_inv in H as [_ H].
  apply Forall_cons in H as [H _]. exact H.
Qed.

(** ** C9: the coordinates of the posts on the map *)

Section MapFacts.
Variable number : Type.
Variables isNaN isZero : number -> bool.
Variable parseFloat : MapPosts.jsval number -> number.
Variable t : string -> string.

Abbreviation post := (MapPosts.post number).
Abbreviation lat := (MapPosts.lat number).
Abbreviation lng := (MapPosts.lng number).
Abbreviation posts := (MapPosts.posts number).
Abbreviation fetchPosts :=
  (MapPosts.fetchPosts number isNaN isZero parseFloat t).
Abbreviation process_all :=
  (MapPosts.process_all number isNaN isZero parseFloat).
Abbreviation has_coordinates := (MapPosts.has_coordinates number isNaN isZero).
Abbreviation placed_at := (coordinate_placed number isNaN isZero).
Abbreviation placed := (post_placed number isNaN isZero).


Lemma truthy_number_spec (v : option number) :
  MapPosts.truthy_number number isNaN isZero v = true <-> placed_at v.
Proof.
  unfold coordinate_placed. destruct v as [n|]; simpl.
  - rewrite andb_true_iff, !negb_true_iff. split.
    + intros [H1 H2]. now exists n.
    + intros (m & [= <-] & H1 & H2). now split.
  - split; [discriminate | intros (m & [=] & _)].
Qed.

Lemma has_coordinates_spec (p : post) :
  has_coordinates p = true <-> placed p.
Proof.
  unfold MapPosts.has_coordinates, post_placed.
  now rewrite andb_true_iff, !truthy_number_spec.
Qed.

(** The coordinates read from a post are never [NaN]. *)
Lemma coordinate_not_NaN (first second : MapPosts.jsval number) (n : number) :
  MapPosts.coordinate number isNaN isZero parseFloat first second = Some n ->
  isNaN n = false.
Proof.
  unfold MapPosts.coordinate.
  destruct (MapPosts.truthy_val number isNaN isZero first
            && negb (isNaN (parseFloat first))) eqn:E1.
  - intros [= <-]. apply andb_true_iff in E1 as [_ E1].
    now apply negb_true_iff in E1.
  - destruct (MapPosts.truthy_val number isNaN isZero second
              && negb (isNaN (parseFloat second))) eqn:E2; [|discriminate].
    intros [= <-]. apply andb_true_iff in E2 as [_ E2].
    now apply negb_true_iff in E2.
Qed.

Lemma fetchPosts_success (seen : bool) (r : MapPosts.response number)
    (st : MapPosts.screen number) (processed : list post) (lines : list string) :
  process_all (array_or_empty (MapPosts.responseData number r).1)
  = Some (processed, lines) ->
  posts (fetchPosts seen (Ok r) st)
  = filter (fun p => has_coordinates p = true) processed.
Proof.
  intros Hp. unfold MapPosts.fetchPosts.
  destruct (MapPosts.responseData number r) as [found warning].
  simpl fst in Hp. rewrite Hp. destruct seen; reflexivity.
Qed.

Lemma fetchPosts_posts (seen : bool) (reply : http (MapPosts.response number))
    (st : MapPosts.screen number) :
  posts (fetchPosts seen reply st) = posts st \/
  exists processed,
    posts (fetchPosts seen reply st)
    = filter (fun p => has_coordinates p = true) processed.
Proof.
  destruct reply as [r | err].
  - destruct (process_all (array_or_empty (MapPosts.responseData number r).1))
      as [[processed lines]|] eqn:Ep.
    + right. exists processed. now apply fetchPosts_success with lines.
    + left. unfold MapPosts.fetchPosts.
      destruct (MapPosts.responseData number r) as [found warning].
      simpl fst in Ep. rewrite Ep. destruct seen; reflexivity.
  - left. unfold MapPosts.fetchPosts. destruct seen; reflexivity.
Qed.

(** C9. Every fetch keeps the posts of the state placed: each stored
    post has numeric [lat] and [lng], neither [NaN] nor zero. After a
    successful fetch the state holds exactly the processed posts that
    pass the filter, so a post whose [lat] or [lng] is [null], [NaN] or
    zero is not stored. *)
Theorem fetchPosts_coordinates (seen : bool)
    (reply : http (MapPosts.response number)) (st : MapPosts.screen number) :
  let st' := fetchPosts seen reply st in
  (Forall placed (posts st) -> Forall placed (posts st')) /\
  (forall r processed lines,
     reply = Ok r ->
     process_all (array_or_empty (MapPosts.responseData number r).1)
     = Some (processed, lines) ->
     posts st' = filter (fun p => has_coordinates p = true) processed /\
     Forall placed (posts st') /\
     (forall p n,
        lat p = None \/ lng p = None \/
        ((lat p = Some n \/ lng p = Some n) /\
         (isNaN n = true \/ isZero n = true)) ->
        p ∉ posts st')).
Proof.
  intros st'.
  assert (Hfilter : forall processed : list post,
            Forall placed (filter (fun p => has_coordinates p = true) processed)).
  { intros processed. apply Forall_forall. intros p Hp.
    apply list_elem_of_filter in Hp as [Hp _].
    now apply has_coordinates_spec. }
  split.
  - intros Hst. subst st'.
    destruct (fetchPosts_posts seen reply st) as [-> | [processed ->]];
      [exact Hst | apply Hfilter].
  - intros r processed lines -> Hp. subst st'.
    rewrite (fetchPosts_success seen r st processed lines Hp).
    split; [reflexivity|]. split; [apply Hfilter|].
    intros p n Hbad Hin.
    apply list_elem_of_filter in Hin as [Hin _].
    apply has_coordinates_spec in Hin
      as [(a & Ha & HaN & HaZ) (b & Hb & HbN & HbZ)].
    destruct Hbad as [H | [H | [[H | H] [H' | H']]]]; congruence.
Qed.

End MapFacts.

Lemma fetchPosts_coordinates_witness :
  let raw := fun la lo : string =>
    {| MapPosts.raw_id := MapPosts.JString _ "1";
       MapPosts.latitude := MapPosts.JString _ la;
       MapPosts.lat_field := MapPosts.JUndefined _;
       MapPosts.longitude := MapPosts.JString _ lo;
       MapPosts.lng_field := MapPosts.JUndefined _;
       MapPosts.images_throws := false |} in
  let reply :=
    {| MapPosts.garbagePosts_data := Arr [Some (raw "42" "21"); Some (raw "0" "21")];
       MapPosts.direct_array := None;
       MapPosts.data_data := Falsy |} in
  let st :=
    {| MapPosts.posts := []; MapPosts.postsLoading := true;
       MapPosts.postsError := ""; MapPosts.refreshing := false;
       MapPosts.console := [] |} in
  let st' := MapPosts.fetchPosts (option Z) whole_isNaN whole_isZero
               whole_parseFloat id false (Ok reply) st in
  MapPosts.posts _ st'
  = [ {| MapPosts.origin := raw "42" "21";
         MapPosts.lat := Some (Some 42%Z); MapPosts.lng := Some (Some 21%Z) |} ] /\
  Forall (post_placed (option Z) whole_isNaN whole_isZero) (MapPosts.posts _ st') /\
  {| MapPosts.origin := raw "0" "21";
     MapPosts.lat := Some (Some 0%Z); MapPosts.lng := Some (Some 21%Z) |}
    ∉ MapPosts.posts _ st'.
Proof.
  intros raw reply st st'.
  destruct (fetchPosts_coordinates (option Z) whole_isNaN whole_isZero
              whole_parseFloat id false (Ok reply) st) as [_ Hsucc].
  destruct (Hsucc reply
              [ {| MapPosts.origin := raw "42" "21";
                   MapPosts.lat := Some (Some 42%Z);
                   MapPosts.lng := Some (Some 21%Z) |};
                {| MapPosts.origin := raw "0" "21";
                   MapPosts.lat := Some (Some 0%Z);
                   MapPosts.lng := Some (Some 21%Z) |} ]
              [] eq_refl eq_refl) as (E & Hall & Hout).
  subst st'. split; [rewrite E; reflexivity|]. split; [exact Hall|].
  apply (Hout _ (Some 0%Z)). right. right. split; [left | right]; reflexivity.
Defined.

(** * Further properties of the code *)

(** ** Resolving a reference twice, and leading slashes *)

Lemma istartsWith_append (s p x : string) :
  istartsWith s p = true -> istartsWith (s +:+ x) p = true.
Proof.
  revert s. induction p as [|c p IH]; intros s H; [reflexivity|].
  destruct s as [|d s]; simpl in H; [discriminate|]. simpl.
  destruct (decide (lower c = lower d)); [now apply IH | discriminate].
Qed.

Lemma test_http_append (s x : string) :
  test_http s = true -> test_http (s +:+ x) = true.
Proof.
  unfold test_http. rewrite !orb_true_iff.
  intros [H | H]; [left | right]; now apply istartsWith_append.
Qed.

Lemma getImageUrl_of_absolute (u apiBase : string) (flag : bool) :
  test_http u = true ->
  PostDetails.getImageUrl (Some u) apiBase flag = Some u /\
  UserDetails.getImageUrl (Some u) apiBase flag = Some u /\
  Home.getImageUrl (Some u) apiBase = Some u.
Proof.
  intros H. unfold PostDetails.getImageUrl, UserDetails.getImageUrl,
    Home.getImageUrl.
  destruct u as [|c u]; [discriminate H|]. now rewrite H.
Qed.

(** Under an absolute base every URL a copy returns is absolute. *)
Lemma getImageUrl_result_absolute (p : option string) (apiBase u : string)
    (flag : bool) :
  test_http apiBase = true ->
  PostDetails.getImageUrl p apiBase flag = Some u \/
  UserDetails.getImageUrl p apiBase flag = Some u \/
  Home.getImageUrl p apiBase = Some u ->
  test_http u = true.
Proof.
  intros Hb H. destruct p as [[|c s]|];
    [destruct H as [H | [H | H]]; discriminate H | |
     destruct H as [H | [H | H]]; discriminate H].
  destruct (test_http (String c s)) eqn:Hh.
  - destruct (getImageUrl_of_absolute (String c s) apiBase flag Hh)
      as (E1 & E2 & E3).
    rewrite E1, E2, E3 in H.
    destruct H as [H | [H | H]]; injection H as <-; exact Hh.
  - rewrite PostDetails_getImageUrl_relative, UserDetails_getImageUrl_relative,
      Home_getImageUrl_relative in H by (assumption || discriminate).
    cbv zeta in H.
    repeat match type of H with
           | context [if ?b then _ else _] => destruct b
           end;
      destruct H as [H | [H | H]]; injection H as <-;
      now apply test_http_append.
Qed.

(** X1. With an absolute API base, resolving an already resolved
    reference changes nothing: each copy of [getImageUrl] is idempotent,
    whatever the avatar flags of the two calls. *)
Theorem getImageUrl_idempotent
    (imagePath : option string) (apiBase : string) (flag flag' : bool) :
  test_http apiBase = true ->
  PostDetails.getImageUrl (PostDetails.getImageUrl imagePath apiBase flag)
    apiBase flag'
  = PostDetails.getImageUrl imagePath apiBase flag /\
  UserDetails.getImageUrl (UserDetails.getImageUrl imagePath apiBase flag)
    apiBase flag'
  = UserDetails.getImageUrl imagePath apiBase flag /\
  Home.getImageUrl (Home.getImageUrl imagePath apiBase) apiBase
  = Home.getImageUrl imagePath apiBase.
Proof.
  intros Hb. split; [|split].
  - destruct (PostDetails.getImageUrl imagePath apiBase flag) as [u|] eqn:E;
      [|reflexivity].
    apply getImageUrl_of_absolute.
    apply (getImageUrl_result_absolute imagePath apiBase u flag Hb). now left.
  - destruct (UserDetails.getImageUrl imagePath apiBase flag) as [u|] eqn:E;
      [|reflexivity].
    apply (getImageUrl_of_absolute u apiBase flag').
    apply (getImageUrl_result_absolute imagePath apiBase u flag Hb).
    right. now left.
  - destruct (Home.getImageUrl imagePath apiBase) as [u|] eqn:E;
      [|reflexivity].
    apply (getImageUrl_of_absolute u apiBase false).
    apply (getImageUrl_result_absolute imagePath apiBase u false Hb).
    right. now right.
Qed.

Lemma getImageUrl_idempotent_witness :
  PostDetails.getImageUrl
    (PostDetails.getImageUrl (Some "/garbage_post_images/a.jpg") "http://h" false)
    "http://h" true
  = Some "http://h/storage/garbage_post_images/a.jpg".
Proof.
  destruct (getImageUrl_idempotent (Some "/garbage_post_images/a.jpg")
              "http://h" false true eq_refl) as (H & _).
  rewrite H. reflexivity.
Defined.

Lemma strip_slashes_append (n : nat) (path : string) :
  startsWith path "/" = false ->
  strip_leading_slashes (slashes n +:+ path) = path.
Proof.
  intros H. induction n as [|n IH]; simpl.
  - now apply strip_leading_slashes_id.
  - destruct (decide ("/"%char = "/"%char)); [exact IH | congruence].
Qed.

(** X2. Leading slashes do not matter: a relative reference and the same
    reference behind any number of slashes resolve to the same URL in
    each copy. (The reference itself must not be absolute: behind a
    slash an absolute URL is taken for a path.) *)
Theorem getImageUrl_leading_slashes
    (n : nat) (path apiBase : string) (flag : bool) :
  path <> "" -> startsWith path "/" = false -> test_http path = false ->
  PostDetails.getImageUrl (Some (slashes n +:+ path)) apiBase flag
  = PostDetails.getImageUrl (Some path) apiBase flag /\
  UserDetails.getImageUrl (Some (slashes n +:+ path)) apiBase flag
  = UserDetails.getImageUrl (Some path) apiBase flag /\
  Home.getImageUrl (Some (slashes n +:+ path)) apiBase
  = Home.getImageUrl (Some path) apiBase.
Proof.
  intros Hne Hs Hh.
  assert (Hne' : slashes n +:+ path <> "").
  { destruct n; simpl; [exact Hne | discriminate]. }
  assert (Hh' : test_http (slashes n +:+ path) = false).
  { destruct n; [exact Hh | reflexivity]. }
  rewrite !PostDetails_getImageUrl_relative, !UserDetails_getImageUrl_relative,
    !Home_getImageUrl_relative by assumption.
  cbv zeta. rewrite strip_slashes_append, strip_leading_slashes_id by assumption.
  now repeat split.
Qed.

Lemma getImageUrl_leading_slashes_witness :
  Home.getImageUrl (Some "///avatar/7.png") "http://h"
  = Home.getImageUrl (Some "avatar/7.png") "http://h".
Proof.
  apply (getImageUrl_leading_slashes 3 "avatar/7.png" "http://h" false);
    [discriminate | reflexivity | reflexivity].
Defined.

(** ** The hooks over a run of failures *)

Lemma handleImageError_defined
    (caseTable : N -> text) (BASE_URL : string) (path : option string)
    (name : option text) (flag : bool) (st : hook) :
  is_Some (fallbackUrl caseTable name) ->
  is_Some (UserDetails.handleImageError caseTable BASE_URL path name flag st).
Proof.
  intros [url E]. unfold UserDetails.handleImageError.
  repeat match goal with
         | |- context [if ?b then _ else _] => destruct b
         end;
    first [ now eexists | rewrite useFallbackAvatar_spec, E; now eexists ].
Qed.

Lemma failures_defined
    (caseTable : N -> text) (BASE_URL : string) (path : option string)
    (name : option text) (flag : bool) (n : nat) :
  is_Some (fallbackUrl caseTable name) ->
  is_Some (UserDetails.failures caseTable BASE_URL path name flag n) /\
  is_Some (PostDetails.failures caseTable BASE_URL path name flag n).
Proof.
  intros Hf. split.
  - unfold UserDetails.failures. induction n as [|n [st IH]]; [now eexists|].
    simpl. rewrite IH. simpl. now apply handleImageError_defined.
  - rewrite PostDetails_failures_run, PostDetails_mounted_spec.
    destruct Hf as [url E]. rewrite E. cbn [fmap option_fmap option_map].
    induction n as [|n [st IH]]; [now eexists|].
    simpl. rewrite IH. simpl. apply handleImageError_defined.
    rewrite E. now eexists.
Qed.

(** When the hooks get through [n] failures without a throw. *)
Lemma hook_run_defined
    (caseTable : N -> text) (BASE_URL path : string) (name : option text)
    (flag : bool) (n : nat) :
  path <> "" ->
  (n <= 3 \/ is_Some (fallbackUrl caseTable name) ->
   is_Some (UserDetails.failures caseTable BASE_URL (Some path) name flag n)) /\
  (is_Some (fallbackUrl caseTable name) ->
   is_Some (PostDetails.failures caseTable BASE_URL (Some path) name flag n)).
Proof.
  intros Hne. split.
  - intros [Hn | Hf]; [|now apply failures_defined].
    destruct n as [|k]; [now eexists|].
    destruct (failures_retries caseTable BASE_URL name flag path k Hne
                ltac:(lia)) as [-> _].
    now eexists.
  - intros Hf. now apply failures_defined.
Qed.

(** X3. For a non-empty reference, after [n] reported failures the
    cursor of either hook stands at [min n 3] and the error flag is set
    exactly when [n] is at least 4; so the cursor never leaves the range
    of the template list. This holds of every run in which nothing has
    thrown: the user-details hook gets through the first three failures
    whatever the name, and further exactly when the fallback URL can be
    built; the post-details hook renders exactly when it can. *)
Theorem hook_state_after_failures
    (caseTable : N -> text) (BASE_URL path : string) (name : option text)
    (flag : bool) (n : nat) :
  path <> "" ->
  let user := UserDetails.failures caseTable BASE_URL (Some path) name flag n in
  let post := PostDetails.failures caseTable BASE_URL (Some path) name flag n in
  (forall st, user = Some st ->
     retryCount st = Nat.min n 3 /\ (imageError st = true <-> 4 <= n)) /\
  (forall st, post = Some st ->
     retryCount st = Nat.min n 3 /\ (imageError st = true <-> 4 <= n)) /\
  (is_Some user <-> n <= 3 \/ is_Some (fallbackUrl caseTable name)) /\
  (is_Some post <-> is_Some (fallbackUrl caseTable name)).
Proof.
  intros Hne user post.
  assert (Hcases : n = 0 \/ 1 <= n <= 3 \/ 4 <= n) by lia.
  destruct Hcases as [-> | [Hk | Hn]]; [|destruct n as [|k]; [lia|] |].
  - subst user post. rewrite PostDetails_failures_run.
    cbn [Nat.iter]. rewrite PostDetails_mounted_spec.
    unfold UserDetails.failures. cbn [Nat.iter].
    destruct path as [|c path]; [congruence|]. cbn [truthy].
    split; [|split; [|split]].
    + intros st [= <-]. split; [reflexivity|]. split; [discriminate | lia].
    + destruct (fallbackUrl caseTable name); [|discriminate].
      intros st [= <-]. split; [reflexivity|]. split; [discriminate | lia].
    + split; [intros _; left; lia | intros _; now eexists].
    + apply fmap_is_Some.
  - destruct (failures_retries caseTable BASE_URL name flag path k Hne
                ltac:(lia)) as [Hu Hp].
    subst user post. rewrite Hu, Hp.
    split; [|split; [|split]].
    + intros st [= <-]. split; [simpl; lia|]. split; [discriminate | lia].
    + destruct (fallbackUrl caseTable name); [|discriminate].
      intros st [= <-]. split; [simpl; lia|]. split; [discriminate | lia].
    + split; [intros _; left; lia | intros _; now eexists].
    + apply fmap_is_Some.
  - destruct (failures_exhausted caseTable BASE_URL name flag path n Hne Hn)
      as [Hu Hp].
    subst user post. rewrite Hu, Hp.
    split; [|split; [|split]].
    + destruct (fallbackUrl caseTable name); [|discriminate].
      intros st [= <-]. split; [simpl; lia|]. now split.
    + destruct (fallbackUrl caseTable name); [|discriminate].
      intros st [= <-]. split; [simpl; lia|]. now split.
    + rewrite fmap_is_Some. split; [now right | intros [? | ?]; [lia | assumption]].
    + apply fmap_is_Some.
Qed.

Lemma hook_state_after_failures_witness :
  (forall st,
     UserDetails.failures (fun u => [u]) "http://h" (Some "a.jpg") None false 2
     = Some st -> retryCount st = 2) /\
  is_Some (UserDetails.failures (fun u => [u]) "http://h" (Some "a.jpg") None false 2) /\
  is_Some (PostDetails.failures (fun u => [u]) "http://h" (Some "a.jpg") None false 7).
Proof.
  destruct (hook_state_after_failures (fun u => [u]) "http://h" "a.jpg" None false 2)
    as (Hu & _ & Hd & _); [discriminate|].
  destruct (hook_state_after_failures (fun u => [u]) "http://h" "a.jpg" None false 7)
    as (_ & _ & _ & Hp); [discriminate|].
  split; [|split].
  - intros st E. now destruct (Hu st E).
  - apply Hd. left. lia.
  - apply Hp. now eexists.
Defined.

Lemma handleImageError_source
    (caseTable : N -> text) (BASE_URL : string) (path : option string)
    (name : option text) (flag : bool) (st st' : hook) :
  UserDetails.handleImageError caseTable BASE_URL path name flag st = Some st' ->
  imageSource st' <> None.
Proof.
  unfold UserDetails.handleImageError.
  repeat match goal with
         | |- context [if ?b then _ else _] => destruct b
         end;
    rewrite ?useFallbackAvatar_spec;
    try destruct (fallbackUrl caseTable name);
    intros [= <-]; discriminate.
Qed.

Lemma getImageUrl_truthy (path : option string) (apiBase : string) (flag : bool) :
  truthy path = true ->
  PostDetails.getImageUrl path apiBase flag <> None /\
  UserDetails.getImageUrl path apiBase flag <> None /\
  Home.getImageUrl path apiBase <> None.
Proof.
  destruct path as [[|c s]|]; try discriminate. intros _.
  unfold PostDetails.getImageUrl, UserDetails.getImageUrl, Home.getImageUrl.
  repeat split;
    repeat match goal with
           | |- context [if ?b then _ else _] => destruct b
           end; discriminate.
Qed.

(** X4. Whenever the post-details hook renders, its source is not null:
    not in its initial state, not after mounting, and not after any
    number of failures. The user-details hook starts with a null source
    at its first render, whatever the reference; once it is mounted it
    holds a null source exactly when the reference is absent or empty
    and no failure has been reported. When the fallback URL can be
    built, both hooks get through any number of failures. *)
Theorem hook_source_never_null
    (caseTable : N -> text) (BASE_URL : string) (path : option string)
    (name : option text) (flag : bool) (n : nat) :
  (forall st, PostDetails.initial caseTable BASE_URL path name flag = Some st ->
     imageSource st <> None) /\
  (forall st, PostDetails.failures caseTable BASE_URL path name flag n = Some st ->
     imageSource st <> None) /\
  imageSource UserDetails.initial = None /\
  (forall st, UserDetails.failures caseTable BASE_URL path name flag n = Some st ->
     (imageSource st = None <-> truthy path = false /\ n = 0)) /\
  (is_Some (fallbackUrl caseTable name) ->
   is_Some (PostDetails.initial caseTable BASE_URL path name flag) /\
   is_Some (PostDetails.failures caseTable BASE_URL path name flag n) /\
   is_Some (UserDetails.failures caseTable BASE_URL path name flag n)).
Proof.
  split; [|split; [|split; [reflexivity|split]]].
  - intros st. rewrite PostDetails_initial_spec.
    destruct (fallbackUrl caseTable name); [|discriminate].
    intros [= <-]. simpl.
    destruct (truthy path) eqn:Ht; [|discriminate].
    now apply getImageUrl_truthy.
  - intros st. rewrite PostDetails_failures_run. destruct n as [|n].
    + cbn [Nat.iter]. rewrite PostDetails_mounted_spec.
      destruct (fallbackUrl caseTable name); [|discriminate].
      intros [= <-]. destruct (truthy path) eqn:Ht; [|discriminate].
      simpl. now apply getImageUrl_truthy.
    + rewrite Nat.iter_succ. cbv beta.
      match goal with
      | |- context [Nat.iter n ?f ?x] => destruct (Nat.iter n f x) as [st0|]
      end; [|discriminate].
      apply handleImageError_source.
  - intros st. unfold UserDetails.failures. destruct n as [|n].
    + cbn [Nat.iter]. intros [= <-].
      unfold UserDetails.mounted, UserDetails.effect.
      destruct (truthy path) eqn:Ht; simpl.
      * split; [|intros [? _]; discriminate].
        intros E. now apply getImageUrl_truthy in E.
      * tauto.
    + rewrite Nat.iter_succ. cbv beta.
      match goal with
      | |- context [Nat.iter n ?f ?x] => destruct (Nat.iter n f x) as [st0|]
      end; [|discriminate].
      intros E. apply handleImageError_source in E.
      split; [congruence | intros [_ ?]; discriminate].
  - intros Hf. split.
    + rewrite PostDetails_initial_spec. now apply fmap_is_Some.
    + destruct (failures_defined caseTable BASE_URL path name flag n Hf).
      now split.
Qed.

Lemma hook_source_never_null_witness :
  exists st,
    PostDetails.failures (fun u => [u]) "http://h" None (Some (units "ann")) false 0
    = Some st /\
    imageSource st
    = Some "https://ui-avatars.com/api/?name=A&background=random&color=fff&size=100".
Proof.
  destruct (hook_source_never_null (fun u => [u]) "http://h" None
              (Some (units "ann")) false 0) as (_ & _ & _ & _ & Hd).
  destruct Hd as (_ & [st E] & _); [now eexists|].
  exists st. split; [exact E|]. now injection E as <-.
Defined.

(** ** The home-screen hook *)

(** X5. The home-screen handler proposes an alternative exactly when
    the URL the hook was given has a last segment that is not empty and
    one of the three templates does not occur in it. The alternative is
    the API base, then the first such template, then that last segment
    alone: whatever directories the URL had are dropped, and for a URL
    that holds a slash the root template is never the one chosen. *)
Theorem Home_alternative_shape (BASE_URL url alt : string) :
  (Home.alternative BASE_URL Home.STORAGE_PATHS url = Some alt <->
   exists template segment,
     first_unused ["/storage/"; "/"; "/public/storage/"] url template /\
     last_segment url segment /\ segment <> "" /\
     alt = BASE_URL +:+ template +:+ segment) /\
  (forall template,
     first_unused ["/storage/"; "/"; "/public/storage/"] url template ->
     (template = "/storage/" \/ template = "/" \/ template = "/public/storage/") /\
     (includes url "/" = true -> template <> "/")) /\
  (Home.alternative BASE_URL Home.STORAGE_PATHS url = None <->
   (forall segment, last_segment url segment -> segment = "") \/
   Forall (fun p => includes url p = true) ["/storage/"; "/"; "/public/storage/"]).
Proof.
  split; [|split].
  - split.
    + intros H. destruct (alternative_spec _ _ _ _ H) as (path & Hfirst & Hne & ->).
      exists path, (List.last (split "/" url) "").
      split; [exact Hfirst|]. split; [apply split_last_segment|]. now split.
    + intros (template & segment & Hfirst & Hlast & Hne & ->).
      apply last_segment_unique in Hlast. subst segment.
      now apply alternative_first_unused.
  - intros template (before & after & E & _ & Hno). split.
    + assert (Hin : In template ["/storage/"; "/"; "/public/storage/"]).
      { rewrite E. apply in_or_app. right. now left. }
      simpl in Hin. destruct Hin as [<- | [<- | [<- | []]]]; auto.
    + intros Hu ->. congruence.
  - split.
    + intros H. apply alternative_none in H as [H | H]; [left | now right].
      intros segment Hs. apply last_segment_unique in Hs. congruence.
    + intros [H | H].
      * apply alternative_no_file. apply H, split_last_segment.
      * now apply alternative_all_used.
Qed.

Lemma Home_alternative_shape_witness :
  Home.alternative "http://h" Home.STORAGE_PATHS "http://h/storage/posts/a.jpg"
  = Some "http://h/public/storage/a.jpg".
Proof.
  apply (Home_alternative_shape "http://h" "http://h/storage/posts/a.jpg").
  exists "/public/storage/", "a.jpg". split; [|split; [|split]].
  - exists ["/storage/"; "/"], []. split; [reflexivity|].
    split; [repeat constructor | reflexivity].
  - split; [reflexivity|]. right. now exists "http://h/storage/posts".
  - discriminate.
  - reflexivity.
Defined.

(** X6. In the home-screen hook the initials avatar is an absorbing
    state: once [imageError] is set every failure gives it again. It is
    reached at the first failure when the URL is absent or empty or no
    alternative exists, and its [name] is the initial as passed in, [U]
    when absent or empty. *)
Theorem Home_fallback_absorbing
    (BASE_URL : string) (initialUrl userInitial : option string) :
  let fallback :=
    {| Home.imageSource := Some (avatarServiceUrl (or_else userInitial "U"));
       Home.imageError := true |} in
  (forall st, Home.imageError st = true ->
     Home.handleImageError BASE_URL initialUrl userInitial st = fallback) /\
  (truthy initialUrl = false \/
   Home.alternative BASE_URL Home.STORAGE_PATHS (or_else initialUrl "") = None ->
   forall n, 1 <= n ->
     Home.failures BASE_URL initialUrl userInitial n = fallback).
Proof.
  intros fallback. split.
  - intros st H. unfold Home.handleImageError. now rewrite H.
  - intros Hnone n Hn. unfold Home.failures.
    induction n as [|n IH]; [lia|]. simpl.
    destruct n as [|n].
    + simpl. unfold Home.handleImageError. simpl Home.imageError. cbv iota.
      destruct Hnone as [-> | Hnone]; [reflexivity|].
      destruct initialUrl as [[|c u]|]; try reflexivity.
      change (truthy (Some (String c u))) with true. cbv iota.
      change (default "" (Some (String c u))) with (String c u).
      change (or_else (Some (String c u)) "") with (String c u) in Hnone.
      now rewrite Hnone.
    + rewrite IH by lia. reflexivity.
Qed.

Lemma Home_fallback_absorbing_witness :
  Home.failures "http://h" (Some "http://h/public/storage/a.jpg") (Some "B") 2
  = {| Home.imageSource :=
         Some "https://ui-avatars.com/api/?name=B&background=random&color=fff&size=100";
       Home.imageError := true |}.
Proof.
  destruct (Home_fallback_absorbing "http://h"
              (Some "http://h/public/storage/a.jpg") (Some "B")) as [_ H].
  apply H; [right; reflexivity | lia].
Defined.

(** ** Retries that repeat the URL tried at mount *)

Lemma no_slash_replace (s : string) :
  includes s "/" = false -> replace "avatar/" "" s = s.
Proof.
  induction s as [|c s IH]; intros H; [reflexivity|].
  assert (Hs : startsWith (String c s) "avatar/" = false).
  { destruct (startsWith (String c s) "avatar/") eqn:E; [|reflexivity].
    apply startsWith_avatar_includes_slash in E. congruence. }
  apply no_slash_tail in H as [_ H].
  change (replace "avatar/" "" (String c s))
    with (if startsWith (String c s) "avatar/"
          then "" +:+ drop_chars (String.length "avatar/") (String c s)
          else String c (replace "avatar/" "" s)).
  rewrite Hs. f_equal. now apply IH.
Qed.

(** X7. Some retries repeat the URL that was tried when the hook
    mounted. For a relative reference without the avatar flag, the first
    retry of the user-details hook is the mount URL again, and so is the
    first retry of the post-details hook unless the cleaned path is under
    [storage/garbage_post_images/]. For an avatar-flagged reference
    without a slash, the second retry of either hook is the mount URL
    again. Nothing throws on the way in the user-details hook, nor in
    the post-details hook once it has rendered. *)
Theorem retry_repeats_mount_url
    (caseTable : N -> text) (BASE_URL path : string) (name : option text) :
  path <> "" -> test_http path = false ->
  let cleaned := strip_leading_slashes path in
  let user := UserDetails.failures caseTable BASE_URL (Some path) name in
  let post := PostDetails.failures caseTable BASE_URL (Some path) name in
  imageSource <$> user false 1 = imageSource <$> user false 0 /\
  (startsWith cleaned "storage/garbage_post_images/" = false ->
   imageSource <$> post false 1 = imageSource <$> post false 0) /\
  (includes cleaned "/" = false ->
   imageSource <$> user true 2 = imageSource <$> user true 0 /\
   imageSource <$> post true 2 = imageSource <$> post true 0) /\
  (forall flag k, k <= 3 ->
     is_Some (user flag k) /\
     (is_Some (fallbackUrl caseTable name) -> is_Some (post flag k))).
Proof.
  intros Hne Hh cleaned user post.
  assert (Hm : forall flag,
    imageSource <$> user flag 0
    = Some (UserDetails.getImageUrl (Some path) BASE_URL flag) /\
    imageSource <$> post flag 0
    = (fun _ => PostDetails.getImageUrl (Some path) BASE_URL flag)
        <$> fallbackUrl caseTable name).
  { intros flag. subst user post. cbv beta. split.
    - destruct path; [congruence | reflexivity].
    - rewrite PostDetails_failures_run. change (Nat.iter 0 ?f ?x) with x.
      rewrite PostDetails_mounted_spec.
      destruct (fallbackUrl caseTable name); [|reflexivity].
      destruct path; [congruence | reflexivity]. }
  assert (Hstep : forall flag k,
    k < 3 ->
    imageSource <$> user flag (S k)
    = Some (Some (retry_candidate BASE_URL cleaned flag k)) /\
    imageSource <$> post flag (S k)
    = (fun _ => Some (retry_candidate BASE_URL cleaned flag k))
        <$> fallbackUrl caseTable name).
  { intros flag k Hk. subst user post. cbv beta.
    destruct (failures_retries caseTable BASE_URL name flag path k Hne Hk)
      as [-> ->].
    split; [reflexivity|]. now destruct (fallbackUrl caseTable name). }
  split; [|split; [|split]].
  - rewrite (proj1 (Hstep false 0 ltac:(lia))), (proj1 (Hm false)).
    rewrite UserDetails_getImageUrl_relative by assumption.
    cbv zeta. fold cleaned. cbn [orb].
    destruct (startsWith cleaned "avatar/") eqn:E; [|reflexivity].
    now rewrite (startsWith_avatar_includes_slash _ E).
  - intros Hs.
    rewrite (proj2 (Hstep false 0 ltac:(lia))), (proj2 (Hm false)).
    rewrite PostDetails_getImageUrl_relative by assumption.
    cbv zeta. fold cleaned. cbn [orb]. rewrite Hs.
    destruct (startsWith cleaned "avatar/") eqn:E; [|reflexivity].
    now rewrite (startsWith_avatar_includes_slash _ E).
  - intros Hs.
    rewrite (proj1 (Hstep true 1 ltac:(lia))), (proj2 (Hstep true 1 ltac:(lia))),
      (proj1 (Hm true)), (proj2 (Hm true)).
    rewrite UserDetails_getImageUrl_relative,
      PostDetails_getImageUrl_relative by assumption.
    cbv zeta. fold cleaned. cbn [orb]. rewrite Hs. cbn [negb].
    unfold retry_candidate.
    rewrite (no_slash_replace _ Hs), (no_slash_split _ Hs). now split.
  - intros flag k Hk. subst user post. cbv beta.
    destruct (hook_run_defined caseTable BASE_URL path name flag k Hne)
      as [Hu Hp].
    split; [apply Hu; now left | exact Hp].
Qed.

Lemma retry_repeats_mount_url_witness :
  imageSource <$>
    UserDetails.failures (fun u => [u]) "http://h" (Some "a/b.jpg") None false 1
  = imageSource <$>
    UserDetails.failures (fun u => [u]) "http://h" (Some "a/b.jpg") None false 0.
Proof.
  destruct (retry_repeats_mount_url (fun u => [u]) "http://h" "a/b.jpg" None)
    as (H & _); [discriminate | reflexivity | exact H].
Defined.

(** ** The saved theme, and voting *)

(** X8. After a toggle whose write goes through, the stored preference
    is the new mode and a later [loadThemePreference] from that store
    brings the mode back -- unless the new mode is ['system'], which is
    never written: then the store is left as it was, so a restart brings
    back the mode saved before. A rejected write leaves the store as it
    was too. *)
Theorem theme_preference_round_trip (st fresh : App.app) (ok : bool) :
  let st' := App.toggleTheme true st in
  App.themeMode st' = Theme.toggleTheme (App.themeMode st) /\
  (App.themeMode st' <> "system" ->
   App.store st' !! "theme_preference" = Some (App.themeMode st') /\
   (App.store fresh = App.store st' ->
    App.themeMode (App.loadThemePreference ok fresh) = App.themeMode st')) /\
  (App.themeMode st' = "system" -> App.store st' = App.store st) /\
  App.store (App.toggleTheme false st) = App.store st.
Proof.
  intros st'. subst st'. unfold App.toggleTheme, App.themeEffect,
    App.saveThemePreference, App.setItem.
  set (m := Theme.toggleTheme (App.themeMode st)).
  assert (Hm : exists c s, m = String c s).
  { subst m. unfold Theme.toggleTheme.
    repeat match goal with |- context [decide ?P] => destruct (decide P) end;
      eauto. }
  destruct Hm as (c & s & Hm). simpl App.themeMode.
  destruct (bool_decide (m <> "system")) eqn:Hsys.
  - apply bool_decide_eq_true in Hsys. simpl.
    split; [reflexivity|]. split; [|split; [congruence | reflexivity]].
    intros _. split; [apply lookup_insert_eq|].
    intros Hstore. unfold App.loadThemePreference.
    rewrite Hstore, lookup_insert_eq, Hm.
    unfold App.themeEffect, App.saveThemePreference, App.setItem.
    simpl App.themeMode.
    destruct (bool_decide _); [destruct ok|]; reflexivity.
  - apply bool_decide_eq_false in Hsys. simpl.
    split; [reflexivity|]. split; [tauto|]. split; reflexivity.
Qed.

Lemma theme_preference_round_trip_witness :
  let st := {| App.store := ∅; App.themeMode := "light"; App.userVotes := ∅;
               App.token := None; App.storedToken := None; App.console := [] |} in
  let st' := App.toggleTheme true st in
  App.store st' !! "theme_preference" = Some "dark" /\
  App.themeMode (App.loadThemePreference true (App.set_themeMode "system" st'))
  = "dark".
Proof.
  intros st st'.
  destruct (theme_preference_round_trip st (App.set_themeMode "system" st') true)
    as (_ & H & _).
  destruct H as [H1 H2]; [discriminate|].
  split; [exact H1 | apply H2; reflexivity].
Defined.

(** X9. [handleVote] never records a vote: whatever the poll, the option
    and the replies, the store and the console stay as they were, the
    entry of the poll keeps its option and vote ids and gets the
    sign-in message with type ['error'], and the entries of the other
    polls are untouched. *)
Theorem handleVote_refused
    (t : string -> string) (stringify : gmap string App.vote -> string)
    (ok : bool) (pollId option_id : string) (reply : http (option string))
    (st : App.app) :
  let st' := App.handleVote t stringify ok pollId option_id reply st in
  let before := default App.no_vote (App.userVotes st !! pollId) in
  App.store st' = App.store st /\
  App.console st' = App.console st /\
  App.token st' = App.token st /\
  App.userVotes st' !! pollId
  = Some {| App.optionId := App.optionId before;
            App.voteId := App.voteId before;
            App.message :=
              Some (or_else (Some (t "auth_required"))
                      "You must be signed in to vote");
            App.type := Some "error" |} /\
  (forall other, other <> pollId ->
     App.userVotes st' !! other = App.userVotes st !! other).
Proof.
  intros st' before. subst st' before.
  unfold App.handleVote, App.handleVote_body. simpl.
  repeat split.
  - apply lookup_insert_eq.
  - intros other Hne. now apply lookup_insert_ne.
Qed.

Lemma handleVote_refused_witness :
  let st := {| App.store := ∅; App.themeMode := "light";
               App.userVotes := {["3" := App.no_vote]};
               App.token := Some "tkn"; App.storedToken := None;
               App.console := [] |} in
  App.userVotes (App.handleVote id (fun _ => "{}") true "7" "2" (Ok (Some "9")) st)
    !! "3" = Some App.no_vote.
Proof.
  intros st.
  destruct (handleVote_refused id (fun _ => "{}") true "7" "2" (Ok (Some "9")) st)
    as (_ & _ & _ & _ & H).
  rewrite H by discriminate. reflexivity.
Defined.

(** ** Edge behaviour of the posts fetch and of the post-details fetch *)

Section MapEdge.
Variable number : Type.
Variables isNaN isZero : number -> bool.
Variable parseFloat : MapPosts.jsval number -> number.
Variable t : string -> string.

Lemma process_all_null (data : list (option (MapPosts.raw_post number))) :
  In None data ->
  MapPosts.process_all number isNaN isZero parseFloat data = None.
Proof.
  induction data as [|item data IH]; [intros []|].
  intros [-> | Hin]; [reflexivity|]. simpl.
  destruct (MapPosts.process number isNaN isZero parseFloat item) as [[p lines]|];
    [|reflexivity].
  now rewrite IH.
Qed.

(** X10. One [null] entry in the array of the reply makes the whole
    posts fetch fail: the posts of the state stay as they were, the
    others of the reply are discarded, and the error message of the map
    is set. *)
Theorem fetchPosts_null_entry (seen : bool) (r : MapPosts.response number)
    (st : MapPosts.screen number) :
  In None (array_or_empty (MapPosts.responseData number r).1) ->
  let st' := MapPosts.fetchPosts number isNaN isZero parseFloat t seen (Ok r) st in
  MapPosts.posts number st' = MapPosts.posts number st /\
  MapPosts.postsError number st' = t "failed_to_load_map" /\
  MapPosts.postsLoading number st' = false.
Proof.
  intros Hin st'. subst st'. unfold MapPosts.fetchPosts.
  destruct (MapPosts.responseData number r) as [found warning].
  simpl fst in Hin. rewrite (process_all_null _ Hin).
  destruct seen; now repeat split.
Qed.

End MapEdge.

Lemma fetchPosts_null_entry_witness :
  let raw :=
    {| MapPosts.raw_id := MapPosts.JString _ "1";
       MapPosts.latitude := MapPosts.JString _ "42";
       MapPosts.lat_field := MapPosts.JUndefined _;
       MapPosts.longitude := MapPosts.JString _ "21";
       MapPosts.lng_field := MapPosts.JUndefined _;
       MapPosts.images_throws := false |} in
  let reply :=
    {| MapPosts.garbagePosts_data := Falsy;
       MapPosts.direct_array := Some [Some raw; None];
       MapPosts.data_data := Falsy |} in
  let st :=
    {| MapPosts.posts := []; MapPosts.postsLoading := true;
       MapPosts.postsError := ""; MapPosts.refreshing := false;
       MapPosts.console := [] |} in
  MapPosts.posts _
    (MapPosts.fetchPosts (option Z) whole_isNaN whole_isZero whole_parseFloat
       id true (Ok reply) st) = [].
Proof.
  intros raw reply st.
  apply (fetchPosts_null_entry (option Z) whole_isNaN whole_isZero
           whole_parseFloat id true reply st).
  simpl. right. now left.
Defined.

(** X11. After [fetchPostDetails], whatever the inputs, [loading] and
    [refreshing] are off and the post of the state is [null] or a post
    with an id; the post held before plays no part in the one held
    after. An absent or blank id, or the texts ['undefined'] and
    ['null'], give [null] whatever the reply, and leave the favorite
    flag alone. *)
Theorem fetchPostDetails_outcome
    (post_data : Type) (id : post_data -> option string)
    (postId token : option string) (reply : http (PostDetails.response post_data))
    (favorites : http (list string)) (st st2 : PostDetails.screen post_data) :
  let fetch := PostDetails.fetchPostDetails post_data id postId token reply
                 favorites in
  PostDetails.loading _ (fetch st) = false /\
  PostDetails.refreshing _ (fetch st) = false /\
  (PostDetails.post _ (fetch st) = None \/
   exists p, PostDetails.post _ (fetch st) = Some p /\ truthy (id p) = true) /\
  PostDetails.post _ (fetch st) = PostDetails.post _ (fetch st2) /\
  (truthy postId = false \/ trim (or_else postId "") = "" \/
   trim (or_else postId "") = "undefined" \/ trim (or_else postId "") = "null" ->
   PostDetails.post _ (fetch st) = None /\
   PostDetails.isFavorited _ (fetch st) = PostDetails.isFavorited _ st).
Proof.
  intros fetch. subst fetch. unfold PostDetails.fetchPostDetails.
  destruct (truthy postId) eqn:Ht; cbn [negb].
  2: { split; [reflexivity|]. split; [reflexivity|]. split; [now left|].
       split; [reflexivity|]. intros _. split; reflexivity. }
  set (normalizedId := trim (or_else postId "")).
  destruct (negb (truthy (Some normalizedId))
            || bool_decide (normalizedId = "undefined")
            || bool_decide (normalizedId = "null")) eqn:Hbad.
  { split; [reflexivity|]. split; [reflexivity|]. split; [now left|].
    split; [reflexivity|]. intros _. split; reflexivity. }
  assert (Hgood : normalizedId <> "" /\ normalizedId <> "undefined" /\
                  normalizedId <> "null").
  { apply orb_false_iff in Hbad as [Hbad H3].
    apply orb_false_iff in Hbad as [H1 H2].
    apply bool_decide_eq_false in H2, H3.
    repeat split; try assumption.
    intros E. rewrite E in H1. discriminate H1. }
  destruct Hgood as (G1 & G2 & G3).
  assert (Hvalid : true = false \/ normalizedId = "" \/
                   normalizedId = "undefined" \/ normalizedId = "null" -> False).
  { intros [H | [H | [H | H]]]; [discriminate H | tauto..]. }
  destruct reply as [res | err].
  - destruct (PostDetails.garbagePost _ res) as [p|];
      [|destruct (PostDetails.data _ res) as [p|];
        [|destruct (PostDetails.whole _ res) as [p|]]];
      try (destruct (truthy (id p)) eqn:Hid;
           [destruct (truthy token); [destruct favorites|]|]);
      (split; [reflexivity|]); (split; [reflexivity|]);
      (split; [first [now left | right; eauto]|]);
      (split; [reflexivity|]);
      intros H; destruct (Hvalid H).
  - split; [reflexivity|]. split; [reflexivity|]. split; [now left|].
    split; [reflexivity|]. intros H; destruct (Hvalid H).
Qed.

Lemma fetchPostDetails_outcome_witness :
  let st := {| PostDetails.post := Some "post 42"; PostDetails.loading := true;
               PostDetails.refreshing := true; PostDetails.isFavorited := true;
               PostDetails.console := [] |} in
  PostDetails.post _
    (PostDetails.fetchPostDetails string Some (Some " null ") (Some "tkn")
       (Ok {| PostDetails.garbagePost := Some "post 7";
              PostDetails.data := None; PostDetails.whole := None |})
       (Ok []) st) = None.
Proof.
  intros st.
  destruct (fetchPostDetails_outcome string Some (Some " null ") (Some "tkn")
              (Ok {| PostDetails.garbagePost := Some "post 7";
                     PostDetails.data := None; PostDetails.whole := None |})
              (Ok []) st st) as (_ & _ & _ & _ & H).
  apply H. right. right. right. reflexivity.
Defined.

(** ** The auth provider *)

Lemma or_else_nonempty (v : option string) (d : string) :
  d <> "" -> or_else v d <> "".
Proof. destruct v as [[|c s]|]; simpl; [easy | discriminate | easy]. Qed.

Lemma or_else_truthy (v : option string) (d : string) :
  truthy v = true -> Some (or_else v d) = v.
Proof. destruct v as [[|c s]|]; try discriminate. reflexivity. Qed.

(** X12. The headers of a request: a header given by the caller always
    wins; [Accept] is always sent; without a header of the caller's,
    [Authorization] is sent exactly when there is a non-empty token, as
    [Bearer] and the token, and [Content-Type] exactly when there is a
    JSON body. *)
Theorem request_headers_spec
    (json : bool) (token : option string) (headers : option (gmap string string)) :
  let h := Auth.request_headers json token headers in
  let given := default ∅ headers in
  (forall k v, given !! k = Some v -> h !! k = Some v) /\
  is_Some (h !! "Accept") /\
  (given !! "Accept" = None -> h !! "Accept" = Some "application/json") /\
  (given !! "Authorization" = None ->
   h !! "Authorization"
   = if truthy token then Some ("Bearer " +:+ or_else token "") else None) /\
  (given !! "Content-Type" = None ->
   h !! "Content-Type" = if json then Some "application/json" else None).
Proof.
  intros h given. subst h. unfold Auth.request_headers. fold given.
  split; [|split; [|split; [|split]]].
  - intros k v Hk. do 3 apply lookup_union_Some_l. exact Hk.
  - apply lookup_union_is_Some. right. rewrite lookup_singleton_eq. eauto.
  - intros Hk. rewrite !lookup_union, Hk, lookup_singleton_eq.
    destruct (truthy token), json;
      rewrite ?lookup_empty, ?lookup_singleton_ne by discriminate; reflexivity.
  - intros Hk. rewrite !lookup_union, Hk.
    rewrite (lookup_singleton_ne "Accept" "Authorization") by discriminate.
    destruct (truthy token), json;
      rewrite ?lookup_empty, ?lookup_singleton_eq,
        ?lookup_singleton_ne by discriminate; reflexivity.
  - intros Hk. rewrite !lookup_union, Hk.
    rewrite (lookup_singleton_ne "Accept" "Content-Type") by discriminate.
    destruct (truthy token), json;
      rewrite ?lookup_empty, ?lookup_singleton_eq,
        ?lookup_singleton_ne by discriminate; reflexivity.
Qed.

Lemma request_headers_spec_witness :
  Auth.request_headers true (Some "abc")
    (Some {["Content-Type" := "multipart/form-data"]})
  !! "Content-Type" = Some "multipart/form-data" /\
  Auth.request_headers true (Some "abc")
    (Some {["Content-Type" := "multipart/form-data"]})
  !! "Authorization" = Some "Bearer abc".
Proof.
  destruct (request_headers_spec true (Some "abc")
              (Some {["Content-Type" := "multipart/form-data"]}))
    as (Hgiven & _ & _ & Hauth & _).
  split; [apply Hgiven; reflexivity | apply Hauth; reflexivity].
Defined.

Section AuthFacts.
Variable json : Type.
Variables message_of error_of : json -> option string.
Variables token_of access_token_of data_token_of : json -> option string.
Variable user_of : json -> option json.
Variable points_number : option json -> option Z.
Variable notifications_of : option json -> jsfield (option Auth.notification).
Variable API_BASE : string.

Abbreviation request := (Auth.request json message_of error_of).
Abbreviation token_in :=
  (Auth.token_in json token_of access_token_of data_token_of).
Abbreviation sign_in :=
  (Auth.sign_in json message_of error_of token_of access_token_of
     data_token_of user_of points_number notifications_of API_BASE).

Lemma request_error_message (f : Auth.fetched json) (e : Auth.error json) :
  request f = inl e -> Auth.message json e <> "".
Proof.
  destruct f as [name msg | [|] st b]; simpl; intros E;
    [|discriminate E|]; injection E as <-; simpl.
  - destruct (bool_decide _); [discriminate|].
    apply or_else_nonempty. discriminate.
  - apply or_else_nonempty, or_else_nonempty. discriminate.
Qed.

(** X13. [request] answers with the body exactly when [fetch] gives a
    response that is [ok]. Every error it throws carries a message that
    is not empty; it is marked as a network error exactly when [fetch]
    itself threw, and otherwise it keeps the status and the body of the
    response. *)
Theorem request_outcome (f : Auth.fetched json) :
  (forall body, request f = inr body <->
                exists st, f = Auth.Response json true st body) /\
  (forall e, request f = inl e ->
     Auth.message json e <> "" /\
     (Auth.network json e = true <-> exists name msg, f = Auth.Thrown json name msg) /\
     (forall ok st body, f = Auth.Response json ok st body ->
        ok = false /\ Auth.status json e = Some st /\ Auth.data json e = body)).
Proof.
  split.
  - intros body. destruct f as [name msg | [|] st b]; simpl; split.
    + discriminate.
    + intros [? [=]].
    + intros [= <-]. eauto.
    + intros [? [= _ <-]]. reflexivity.
    + discriminate.
    + intros [? [=]].
  - intros e. destruct f as [name msg | [|] st b]; simpl; intros E;
      [|discriminate E|]; injection E as <-; simpl.
    + split; [|split].
      * destruct (bool_decide _); [discriminate|].
        apply or_else_nonempty. discriminate.
      * split; eauto.
      * intros ? ? ? [=].
    + split; [|split].
      * apply or_else_nonempty, or_else_nonempty. discriminate.
      * split; [discriminate | intros (? & ? & [=])].
      * intros ? ? ? [= <- <- <-]. now repeat split.
Qed.

Lemma caught_fields (f1 f2 f3 : Auth.fetched json) (st : Auth.provider json) :
  let st' :=
    Auth.caught json
      (Auth.loadNotifications json message_of error_of notifications_of) f3
      (Auth.caught json (Auth.loadPoints json message_of error_of points_number) f2
         (Auth.caught json (Auth.loadProfile json message_of error_of user_of) f1 st)) in
  Auth.token json st' = Auth.token json st /\
  Auth.alerts json st' = Auth.alerts json st /\
  Auth.loading json st' = Auth.loading json st.
Proof.
  unfold Auth.caught, Auth.loadNotifications, Auth.loadPoints, Auth.loadProfile.
  destruct (request f1), (request f2), (request f3); now repeat split.
Qed.

(** X14. Signing in ([login], [loginWithGoogle], [loginWithApple])
    succeeds exactly when the sign-in request is answered with a body
    that holds a non-empty token, whatever becomes of the three loads
    that follow. On success the token is stored and no alert is raised.
    On failure the token, user, points and notifications are as before,
    and one alert is raised whose text, not empty, is also returned.
    Either way [loading] is off at the end. *)
Theorem sign_in_outcome (title : string)
    (f f1 f2 f3 : Auth.fetched json) (st : Auth.provider json) :
  let result := (sign_in title f f1 f2 f3 st).1 in
  let st' := (sign_in title f f1 f2 f3 st).2 in
  Auth.loading json st' = false /\
  (Auth.success result = true <->
   exists body tkn, request f = inr body /\ token_in body = Some tkn /\ tkn <> "") /\
  (Auth.success result = true ->
   Auth.failure result = None /\ truthy (Auth.token json st') = true /\
   (exists body, request f = inr body /\ Auth.token json st' = token_in body) /\
   Auth.alerts json st' = Auth.alerts json st) /\
  (Auth.success result = false ->
   Auth.token json st' = Auth.token json st /\
   Auth.user json st' = Auth.user json st /\
   Auth.points json st' = Auth.points json st /\
   Auth.notifications json st' = Auth.notifications json st /\
   Auth.unreadCount json st' = Auth.unreadCount json st /\
   exists text, text <> "" /\ Auth.failure result = Some text /\
     Auth.alerts json st' = Auth.alerts json st ++ [(title, text)]).
Proof.
  intros result st'. subst result st'. unfold Auth.sign_in.
  assert (Hfail : forall e,
    Auth.message json e <> "" ->
    exists text, text <> "" /\
      Auth.sign_in_failed json API_BASE title e (Auth.set_loading json true st)
      = ({| Auth.success := false; Auth.failure := Some text |},
         Auth.alert json title text (Auth.set_loading json true st))).
  { intros e He. unfold Auth.sign_in_failed. destruct (Auth.network json e).
    - eexists. split; [|reflexivity]. discriminate.
    - eexists. split; [|reflexivity]. apply or_else_nonempty. discriminate. }
  destruct (request f) as [e | body] eqn:Ef.
  - pose proof (request_error_message f e Ef) as Hmsg.
    destruct (Hfail e Hmsg) as (text & Htext & ->). simpl.
    split; [reflexivity|]. split.
    { split; [discriminate | intros (? & ? & [=] & _)]. }
    split; [discriminate|]. intros _. repeat split. eauto.
  - destruct (token_in body) as [[|c tkn]|] eqn:Et.
    + destruct (Hfail {| Auth.message := "No token in response";
                         Auth.status := None; Auth.data := None;
                         Auth.network := false |}) as (text & Htext & ->);
        [discriminate|]. simpl.
      split; [reflexivity|]. split.
      { split; [discriminate|]. intros (b & k & [= <-] & Hk & Hne).
        rewrite Et in Hk. congruence. }
      split; [discriminate|]. intros _. repeat split. eauto.
    + simpl.
      pose proof (caught_fields f1 f2 f3
                    (Auth.set_token json (Some (String c tkn))
                       (Auth.set_loading json true st))) as (Ht & Ha & _).
      simpl in Ht, Ha.
      split; [reflexivity|]. split.
      { split; [|reflexivity]. intros _. exists body, (String c tkn).
        split; [reflexivity|]. split; [exact Et | discriminate]. }
      split; [|discriminate]. intros _.
      split; [reflexivity|]. rewrite Ht. split; [reflexivity|].
      split; [|exact Ha]. exists body. split; [reflexivity | now rewrite Et].
    + destruct (Hfail {| Auth.message := "No token in response";
                         Auth.status := None; Auth.data := None;
                         Auth.network := false |}) as (text & Htext & ->);
        [discriminate|]. simpl.
      split; [reflexivity|]. split.
      { split; [discriminate|]. intros (b & k & [= <-] & Hk & Hne).
        rewrite Et in Hk. congruence. }
      split; [discriminate|]. intros _. repeat split. eauto.
Qed.

End AuthFacts.

Lemma request_outcome_witness :
  let e := {| Auth.message := "Request failed (404)"; Auth.status := Some 404%N;
              Auth.data := @None string; Auth.network := false |} in
  Auth.message string e <> "" /\ Auth.status string e = Some 404%N.
Proof.
  intros e.
  destruct (request_outcome string (fun _ => None) (fun _ => None)
              (Auth.Response string false 404 None)) as [_ H].
  destruct (H e eq_refl) as (Hm & _ & Hs).
  destruct (Hs false 404%N None eq_refl) as (_ & Hst & _).
  split; [exact Hm | exact Hst].
Defined.

Lemma sign_in_outcome_witness :
  let bad := Auth.Thrown string (Some "AbortError") None in
  let r := Auth.login string (fun _ => None) (fun _ => None) Some
             (fun _ => None) (fun _ => None) (fun _ => None) (fun _ => None)
             (fun _ => Falsy) "http://h" (Auth.Response string true 200 (Some "tkn"))
             bad bad bad (Auth.signed_out string) in
  Auth.success r.1 = true /\ Auth.token string r.2 = Some "tkn".
Proof.
  intros bad r.
  destruct (sign_in_outcome string (fun _ => None) (fun _ => None) Some
              (fun _ => None) (fun _ => None) (fun _ => None) (fun _ => None)
              (fun _ => Falsy) "http://h" "Login failed"
              (Auth.Response string true 200 (Some "tkn")) bad bad bad
              (Auth.signed_out string)) as (_ & Hiff & Hok & _).
  assert (Hs : Auth.success r.1 = true).
  { apply Hiff. exists (Some "tkn"), "tkn". repeat split. discriminate. }
  split; [exact Hs|].
  destruct (Hok Hs) as (_ & _ & (body & Hb & Ht) & _).
  injection Hb as <-. exact Ht.
Defined.

Section AuthInvariant.
Variable json : Type.
Variables message_of error_of : json -> option string.
Variables token_of access_token_of data_token_of : json -> option string.
Variable user_of : json -> option json.
Variable points_number : option json -> option Z.
Variable notifications_of : option json -> jsfield (option Auth.notification).
Variable API_BASE : string.

Abbreviation auth_step :=
  (Auth.step json message_of error_of token_of access_token_of
     data_token_of user_of points_number notifications_of API_BASE).

Abbreviation provider_ok := (Auth.provider_ok json).

Lemma set_loading_ok (st : Auth.provider json) :
  Auth.unreadCount json st
  = length (List.filter Auth.unread (Auth.notifications json st)) ->
  Auth.token json st = None \/ truthy (Auth.token json st) = true ->
  provider_ok (Auth.set_loading json false st).
Proof. intros Hc Ht. now repeat split. Qed.

Lemma loads_keep_counter (f1 f2 f3 : Auth.fetched json) (st : Auth.provider json) :
  let st' :=
    Auth.caught json
      (Auth.loadNotifications json message_of error_of notifications_of) f3
      (Auth.caught json (Auth.loadPoints json message_of error_of points_number) f2
         (Auth.caught json (Auth.loadProfile json message_of error_of user_of) f1 st)) in
  Auth.unreadCount json st
  = length (List.filter Auth.unread (Auth.notifications json st)) ->
  Auth.unreadCount json st'
  = length (List.filter Auth.unread (Auth.notifications json st')) /\
  Auth.token json st' = Auth.token json st.
Proof.
  unfold Auth.caught, Auth.loadNotifications, Auth.loadPoints, Auth.loadProfile.
  destruct (Auth.request json message_of error_of f1),
    (Auth.request json message_of error_of f2),
    (Auth.request json message_of error_of f3); simpl; intros H;
    (split; [first [exact H | reflexivity] | reflexivity]).
Qed.

Lemma signed_in_ok (c : ascii) (tkn : string) (f1 f2 f3 : Auth.fetched json)
    (st : Auth.provider json) :
  provider_ok st ->
  provider_ok
    (Auth.set_loading json false
       (Auth.caught json
          (Auth.loadNotifications json message_of error_of notifications_of) f3
          (Auth.caught json
             (Auth.loadPoints json message_of error_of points_number) f2
             (Auth.caught json
                (Auth.loadProfile json message_of error_of user_of) f1
                (Auth.set_token json (Some (String c tkn))
                   (Auth.set_loading json true st)))))).
Proof.
  intros (Hc & Ht & Hl).
  destruct (loads_keep_counter f1 f2 f3
              (Auth.set_token json (Some (String c tkn))
                 (Auth.set_loading json true st)) Hc) as [Hc' Ht'].
  apply set_loading_ok; [exact Hc'|]. right. now rewrite Ht'.
Qed.

Lemma sign_in_ok (title : string) (f f1 f2 f3 : Auth.fetched json)
    (st : Auth.provider json) :
  provider_ok st ->
  provider_ok
    (Auth.sign_in json message_of error_of token_of access_token_of
       data_token_of user_of points_number notifications_of API_BASE
       title f f1 f2 f3 st).2.
Proof.
  intros Hst. unfold Auth.sign_in, Auth.sign_in_failed.
  destruct (Auth.request json message_of error_of f) as [e | body].
  - destruct Hst as (Hc & Ht & Hl). now repeat split.
  - destruct (Auth.token_in json token_of access_token_of data_token_of body)
      as [[|c tkn]|].
    + destruct Hst as (Hc & Ht & Hl). now repeat split.
    + cbv beta iota zeta. cbn [snd]. now apply signed_in_ok.
    + destruct Hst as (Hc & Ht & Hl). now repeat split.
Qed.

Lemma step_ok (st : Auth.provider json) (o : Auth.operation json) :
  provider_ok st -> provider_ok (auth_step st o).
Proof.
  intros Hst. destruct o as [f f1 f2 f3 | f f1 f2 f3 | f f1 f2 f3
                            | f f1 f2 f3 | f | f]; simpl.
  - now apply sign_in_ok.
  - now apply sign_in_ok.
  - now apply sign_in_ok.
  - unfold Auth.register.
    destruct (Auth.request json message_of error_of f) as [e | body].
    + destruct Hst as (Hc & Ht & Hl). now repeat split.
    + destruct (Auth.token_in json token_of access_token_of data_token_of body)
        as [[|c tkn]|].
      * destruct Hst as (Hc & Ht & Hl). now repeat split.
      * cbv beta iota zeta. cbn [snd]. now apply signed_in_ok.
      * destruct Hst as (Hc & Ht & Hl). now repeat split.
  - destruct Hst as (Hc & Ht & Hl). unfold Auth.logout.
    split; [reflexivity|]. split; [now left | exact Hl].
  - destruct Hst as (Hc & Ht & Hl). unfold Auth.clearAllNotifications.
    destruct (negb (truthy (Auth.token json st))); [now repeat split|].
    destruct (Auth.request json message_of error_of f); now repeat split.
Qed.

(** X15. Over any sequence of operations of the provider, starting
    signed out: the unread counter is the number of unread entries of
    the notification list, so never more than its length; the token is
    absent or not empty; and no operation leaves [loading] on. After
    [logout] the token is absent and both the list and the counter are
    empty, whatever the server answered. *)
Theorem provider_invariant (ops : list (Auth.operation json)) (f : Auth.fetched json) :
  let st := foldl auth_step (Auth.signed_out json) ops in
  Auth.unreadCount json st
  = length (List.filter Auth.unread (Auth.notifications json st)) /\
  Auth.unreadCount json st <= length (Auth.notifications json st) /\
  (Auth.token json st = None \/ truthy (Auth.token json st) = true) /\
  Auth.loading json st = false /\
  Auth.token json (Auth.logout json f st) = None /\
  Auth.notifications json (Auth.logout json f st) = [] /\
  Auth.unreadCount json (Auth.logout json f st) = 0.
Proof.
  intros st.
  assert (Hok : provider_ok st).
  { subst st.
    assert (H0 : provider_ok (Auth.signed_out json)).
    { repeat split. now left. }
    revert H0. generalize (Auth.signed_out json).
    induction ops as [|o ops IH]; intros st0 H0; [exact H0|].
    simpl. apply IH. now apply step_ok. }
  destruct Hok as (Hc & Ht & Hl).
  split; [exact Hc|]. split.
  { rewrite Hc. apply List.filter_length_le. }
  now repeat split.
Qed.

End AuthInvariant.

(** ** The feed of the home screen *)




Lemma favorite_fold_true (l : list (option HomeFeed.favorite))
    (m : gmap string bool) (k : string) :
  foldl (fun map item =>
           match HomeFeed.pid item with
           | Some k => <[k := true]> map
           | None => map
           end) m l !! k = Some true <->
  m !! k = Some true \/ exists item, In item l /\ HomeFeed.pid item = Some k.
Proof.
  revert m. induction l as [|x l IH]; intros m; simpl.
  - split; [now left | intros [H | (? & [] & _)]; exact H].
  - rewrite IH. destruct (HomeFeed.pid x) as [k'|] eqn:Ex.
    + destruct (decide (k' = k)) as [-> | Hne].
      * rewrite lookup_insert_eq. split; [|now left].
        intros _. right. exists x. split; [now left | exact Ex].
      * rewrite lookup_insert_ne by exact Hne. split.
        -- intros [H | (item & Hin & Hp)]; [now left|].
           right. exists item. split; [now right | exact Hp].
        -- intros [H | (item & [<- | Hin] & Hp)]; [now left | congruence|].
           right. now exists item.
    + split.
      * intros [H | (item & Hin & Hp)]; [now left|].
        right. exists item. split; [now right | exact Hp].
      * intros [H | (item & [<- | Hin] & Hp)]; [now left | congruence|].
        right. now exists item.
Qed.

Lemma favorite_fold_false (l : list (option HomeFeed.favorite))
    (m : gmap string bool) (k : string) :
  m !! k <> Some false ->
  foldl (fun map item =>
           match HomeFeed.pid item with
           | Some k => <[k := true]> map
           | None => map
           end) m l !! k <> Some false.
Proof.
  revert m. induction l as [|x l IH]; intros m Hm; simpl; [exact Hm|].
  apply IH. destruct (HomeFeed.pid x) as [k'|]; [|exact Hm].
  destruct (decide (k' = k)) as [-> | Hne].
  - rewrite lookup_insert_eq. discriminate.
  - now rewrite lookup_insert_ne.
Qed.

(** X17. [fetchFavorites] without a token empties the map of favorites.
    With a token, a failed request leaves the map as it was, and a
    reply replaces it by the map that holds [true] exactly at the ids
    found in the entries of the list -- the first of [garbage_post_id],
    [post_id], [garbage_post.id] and [post.id] that is not [null] -- and
    [false] nowhere. *)
Theorem fetchFavorites_map (reply : http (option HomeFeed.payload))
    (st : HomeFeed.posts) :
  let st' := HomeFeed.fetchFavorites reply st in
  (truthy (HomeFeed.token st) = false -> HomeFeed.favoritedByPost st' = ∅) /\
  (truthy (HomeFeed.token st) = true ->
   (forall err, reply = Failed err ->
      HomeFeed.favoritedByPost st' = HomeFeed.favoritedByPost st) /\
   (forall p k, reply = Ok (Some p) ->
      (HomeFeed.favoritedByPost st' !! k = Some true <->
       exists item, In item (HomeFeed.favorite_list p) /\
                    HomeFeed.pid item = Some k) /\
      HomeFeed.favoritedByPost st' !! k <> Some false) /\
   (reply = Ok None -> HomeFeed.favoritedByPost st' = ∅)).
Proof.
  intros st'. subst st'. unfold HomeFeed.fetchFavorites. split.
  - intros ->. reflexivity.
  - intros ->. cbn [negb]. split; [|split].
    + intros err ->. reflexivity.
    + intros p k ->. simpl. unfold HomeFeed.favorite_map. split.
      * rewrite favorite_fold_true, lookup_empty. split.
        -- intros [H | H]; [discriminate H | exact H].
        -- intros H. now right.
      * apply favorite_fold_false. rewrite lookup_empty. discriminate.
    + intros ->. reflexivity.
Qed.

Lemma fetchFavorites_map_witness :
  let item := {| HomeFeed.garbage_post_id := None; HomeFeed.post_id := Some "12";
                 HomeFeed.garbage_post := Some "99"; HomeFeed.post := None |} in
  let p := {| HomeFeed.favoritePosts := Falsy; HomeFeed.favorites := NotArray;
              HomeFeed.data := Arr [None; Some item];
              HomeFeed.favorite_posts := Falsy;
              HomeFeed.favorite_posts_data := Falsy |} in
  let st := {| HomeFeed.token := Some "tkn"; HomeFeed.favoritedByPost := ∅;
               HomeFeed.favoriting := ∅; HomeFeed.reactionTypeByPost := ∅;
               HomeFeed.reactionFlashByPost := ∅; HomeFeed.console := [] |} in
  HomeFeed.favoritedByPost (HomeFeed.fetchFavorites (Ok (Some p)) st) !! "12"
  = Some true.
Proof.
  intros item p st.
  destruct (fetchFavorites_map (Ok (Some p)) st) as [_ H].
  destruct (H eq_refl) as (_ & Hmap & _).
  apply (Hmap p "12" eq_refl). exists (Some item).
  split; [right; now left | reflexivity].
Defined.

(** X18. [toggleFavorite] does nothing without a token or while a toggle
    of the same post is under way. Otherwise it ends with the busy flag
    of the post off; a request that succeeds flips the favorite flag of
    the post, a request that fails leaves every flag as it was; no other
    post is touched. Two toggles that succeed bring the flag back. *)
Theorem toggleFavorite_spec (postId : string) (reply reply2 : http unit)
    (st : HomeFeed.posts) :
  let st' := HomeFeed.toggleFavorite postId reply st in
  let isFav := default false (HomeFeed.favoritedByPost st !! postId) in
  (truthy (HomeFeed.token st) = false \/
   HomeFeed.favoriting st !! postId = Some true -> st' = st) /\
  (truthy (HomeFeed.token st) = true ->
   default false (HomeFeed.favoriting st !! postId) = false ->
   HomeFeed.favoriting st' !! postId = Some false /\
   (forall other, other <> postId ->
      HomeFeed.favoritedByPost st' !! other = HomeFeed.favoritedByPost st !! other /\
      HomeFeed.favoriting st' !! other = HomeFeed.favoriting st !! other) /\
   (reply = Ok tt -> HomeFeed.favoritedByPost st' !! postId = Some (negb isFav)) /\
   (forall err, reply = Failed err ->
      HomeFeed.favoritedByPost st' = HomeFeed.favoritedByPost st) /\
   (reply = Ok tt -> reply2 = Ok tt ->
    HomeFeed.favoritedByPost (HomeFeed.toggleFavorite postId reply2 st') !! postId
    = Some isFav)).
Proof.
  intros st' isFav. subst st'. unfold HomeFeed.toggleFavorite. split.
  - intros [-> | ->]; [reflexivity|]. simpl. now destruct (negb _).
  - intros Htok Hbusy. rewrite Htok. cbn [negb]. rewrite Hbusy.
    split; [|split; [|split; [|split]]].
    + destruct reply; simpl; apply lookup_insert_eq.
    + intros other Hne. destruct reply; simpl;
        rewrite !lookup_insert_ne by congruence; now split.
    + intros ->. simpl. apply lookup_insert_eq.
    + intros err ->. reflexivity.
    + intros -> ->. simpl. rewrite Htok, lookup_insert_eq. simpl.
      rewrite !lookup_insert_eq. simpl. fold isFav.
      now rewrite negb_involutive.
Qed.

Lemma toggleFavorite_spec_witness :
  let st := {| HomeFeed.token := Some "tkn";
               HomeFeed.favoritedByPost := {["5" := true]};
               HomeFeed.favoriting := ∅; HomeFeed.reactionTypeByPost := ∅;
               HomeFeed.reactionFlashByPost := ∅; HomeFeed.console := [] |} in
  HomeFeed.favoritedByPost (HomeFeed.toggleFavorite "5" (Ok tt) st) !! "5"
  = Some false.
Proof.
  intros st.
  destruct (toggleFavorite_spec "5" (Ok tt) (Ok tt) st) as [_ H].
  destruct (H eq_refl eq_refl) as (_ & _ & Hflip & _).
  exact (Hflip eq_refl).
Defined.

Lemma toggleReaction_lookup (postId reactionType : string) (st : HomeFeed.posts) :
  truthy (HomeFeed.token st) = true ->
  HomeFeed.reactionTypeByPost (HomeFeed.toggleReaction postId reactionType st)
    !! postId
  = (if bool_decide (HomeFeed.reactionTypeByPost st !! postId = Some reactionType)
     then None else Some reactionType) /\
  HomeFeed.token (HomeFeed.toggleReaction postId reactionType st)
  = HomeFeed.token st.
Proof.
  intros Htok. unfold HomeFeed.toggleReaction. rewrite Htok. cbn [negb].
  destruct (bool_decide _); simpl.
  - split; [apply lookup_delete_eq | reflexivity].
  - split; [apply lookup_insert_eq | reflexivity].
Qed.

(** X19. [toggleReaction] does nothing without a token. With one, it
    removes the reaction of the post when that is the reaction given,
    and sets the reaction given otherwise; the other posts keep theirs,
    and the post gets a flash message that the timer removes. Giving the
    same reaction twice brings back a post that had that reaction or
    none, and leaves without a reaction a post that had another one. *)
Theorem toggleReaction_spec (postId reactionType : string) (st : HomeFeed.posts) :
  let st' := HomeFeed.toggleReaction postId reactionType st in
  let before := HomeFeed.reactionTypeByPost st !! postId in
  (truthy (HomeFeed.token st) = false -> st' = st) /\
  (truthy (HomeFeed.token st) = true ->
   HomeFeed.reactionTypeByPost st' !! postId
   = (if bool_decide (before = Some reactionType) then None
      else Some reactionType) /\
   (forall other, other <> postId ->
      HomeFeed.reactionTypeByPost st' !! other
      = HomeFeed.reactionTypeByPost st !! other) /\
   HomeFeed.reactionFlashByPost st' !! postId
   = Some ("Reaction saved", "success") /\
   HomeFeed.reactionFlashByPost (HomeFeed.flashExpired postId st') !! postId
   = None /\
   HomeFeed.reactionTypeByPost
     (HomeFeed.toggleReaction postId reactionType st') !! postId
   = (if bool_decide (before = None \/ before = Some reactionType)
      then before else None)).
Proof.
  intros st' before. subst st'. split.
  - intros H. unfold HomeFeed.toggleReaction. now rewrite H.
  - intros Htok.
    destruct (toggleReaction_lookup postId reactionType st Htok) as [Hl Ht].
    fold before in Hl.
    split; [exact Hl|]. split; [|split; [|split]].
    + intros other Hne. unfold HomeFeed.toggleReaction. rewrite Htok. cbn [negb].
      destruct (bool_decide _); simpl.
      * now apply lookup_delete_ne.
      * now apply lookup_insert_ne.
    + unfold HomeFeed.toggleReaction. rewrite Htok. cbn [negb].
      destruct (bool_decide _); simpl; apply lookup_insert_eq.
    + unfold HomeFeed.flashExpired. simpl. apply lookup_delete_eq.
    + rewrite <- Ht in Htok.
      destruct (toggleReaction_lookup postId reactionType _ Htok) as [Hl2 _].
      rewrite Hl2, Hl.
      destruct (bool_decide (before = Some reactionType)) eqn:E.
      * apply bool_decide_eq_true in E.
        rewrite (bool_decide_eq_false_2 (None = Some reactionType)) by discriminate.
        rewrite bool_decide_eq_true_2 by (now right). now rewrite E.
      * apply bool_decide_eq_false in E.
        rewrite bool_decide_eq_true_2 by reflexivity.
        destruct before as [r|]; [|now rewrite bool_decide_eq_true_2 by (now left)].
        rewrite bool_decide_eq_false_2; [reflexivity|].
        intros [? | ?]; congruence.
Qed.

Lemma toggleReaction_spec_witness :
  let st := {| HomeFeed.token := Some "tkn"; HomeFeed.favoritedByPost := ∅;
               HomeFeed.favoriting := ∅;
               HomeFeed.reactionTypeByPost := {["5" := "downvote"]};
               HomeFeed.reactionFlashByPost := ∅; HomeFeed.console := [] |} in
  HomeFeed.reactionTypeByPost (HomeFeed.toggleReaction "5" "upvote" st) !! "5"
  = Some "upvote".
Proof.
  intros st.
  destruct (toggleReaction_spec "5" "upvote" st) as [_ H].
  destruct (H eq_refl) as (Hr & _). rewrite Hr. reflexivity.
Defined.

(** *** The list of the map screen *)

Lemma filter_sublist_impl {A} (f g : A -> bool) (l : list A) :
  (forall x, f x = true -> g x = true) ->
  sublist (List.filter f l) (List.filter g l).
Proof.
  intros Himp. induction l as [|x l IH]; simpl; [constructor|].
  destruct (f x) eqn:Ef.
  - rewrite (Himp x Ef). now constructor.
  - destruct (g x); [now constructor | exact IH].
Qed.

Lemma filter_sublist_self {A} (f : A -> bool) (l : list A) :
  sublist (List.filter f l) l.
Proof.
  induction l as [|x l IH]; simpl; [constructor|].
  destruct (f x); now constructor.
Qed.

Lemma filter_all {A} (f : A -> bool) (l : list A) :
  (forall x, f x = true) -> List.filter f l = l.
Proof.
  intros Hf. induction l as [|x l IH]; simpl; [reflexivity|].
  now rewrite Hf, IH.
Qed.

Section MapListFacts.
Variable parseDate : string -> option Z.
Variable nowTs : Z.
Variable toLowerCase : string -> string.

Lemma withinRange_AllTimes (dateStr : option string) :
  MapList.withinRange parseDate nowTs "AllTimes" dateStr = true.
Proof.
  unfold MapList.withinRange.
  destruct (truthy dateStr); cbn [negb]; [|reflexivity].
  now destruct (parseDate _).
Qed.

Lemma withinRange_24H_LastWeek (dateStr : option string) :
  MapList.withinRange parseDate nowTs "24H" dateStr = true ->
  MapList.withinRange parseDate nowTs "LastWeek" dateStr = true.
Proof.
  unfold MapList.withinRange.
  destruct (truthy dateStr); cbn [negb]; [|discriminate].
  destruct (parseDate _) as [ts|]; [|reflexivity].
  rewrite (bool_decide_eq_true_2 ("24H" = "24H")) by reflexivity.
  rewrite (bool_decide_eq_false_2 ("LastWeek" = "24H")) by discriminate.
  rewrite (bool_decide_eq_true_2 ("LastWeek" = "LastWeek")) by reflexivity.
  intros H. apply Z.leb_le in H. apply Z.leb_le. lia.
Qed.

Lemma shown_weaker (r1 r2 q : string) (p : MapList.post) :
  (forall d, MapList.withinRange parseDate nowTs r1 d = true ->
             MapList.withinRange parseDate nowTs r2 d = true) ->
  MapList.shown parseDate nowTs toLowerCase r1 q p = true ->
  MapList.shown parseDate nowTs toLowerCase r2 q p = true.
Proof.
  intros Himp. unfold MapList.shown.
  destruct (MapList.withinRange parseDate nowTs r1 _) eqn:E; cbn [negb];
    [|discriminate].
  now rewrite (Himp _ E).
Qed.

Lemma filteredPosts_filter (r q : string) (posts : list MapList.post) :
  MapList.filteredPosts parseDate nowTs toLowerCase r q posts
  = List.filter (MapList.shown parseDate nowTs toLowerCase r q) posts.
Proof. now destruct posts. Qed.

(** X20. The list of the map screen keeps the order of the posts. What
    it shows for the last 24 hours it shows for the last week, and what
    it shows for any range it shows for all times; for all times and an
    empty search text it shows every post. A post with neither
    [createdAt] nor [created_at] is shown for the range [AllTimes]
    only. *)
Theorem filteredPosts_ranges (sortRange searchQuery : string)
    (posts : list MapList.post) :
  let listed r :=
    MapList.filteredPosts parseDate nowTs toLowerCase r searchQuery posts in
  sublist (listed "24H") (listed "LastWeek") /\
  sublist (listed sortRange) (listed "AllTimes") /\
  sublist (listed sortRange) posts /\
  MapList.filteredPosts parseDate nowTs toLowerCase "AllTimes" "" posts = posts /\
  (forall p, In p (listed sortRange) ->
     truthy (MapList.createdAt p) = false ->
     truthy (MapList.created_at p) = false ->
     sortRange = "AllTimes").
Proof.
  intros listed. subst listed. cbv beta. rewrite !filteredPosts_filter.
  split; [|split; [|split; [|split]]].
  - apply filter_sublist_impl. intros p. apply shown_weaker.
    exact withinRange_24H_LastWeek.
  - apply filter_sublist_impl. intros p. apply shown_weaker.
    intros d _. apply withinRange_AllTimes.
  - apply filter_sublist_self.
  - apply filter_all. intros p. unfold MapList.shown.
    now rewrite withinRange_AllTimes.
  - intros p Hin Ha Hb. apply filter_In in Hin as [_ Hs].
    unfold MapList.shown in Hs.
    destruct (MapList.withinRange parseDate nowTs sortRange _) eqn:E;
      cbn [negb] in Hs; [|discriminate].
    unfold MapList.withinRange, MapList.first_of in E.
    rewrite Ha, Hb in E. cbn [negb] in E.
    now apply bool_decide_eq_true in E.
Qed.

End MapListFacts.

Lemma startsWith_includes_slash (s p : string) :
  includes p "/" = true -> startsWith s p = true -> includes s "/" = true.
Proof.
  intros Hp Hs. apply startsWith_spec in Hs as [rest ->].
  induction p as [|c p IH]; [discriminate|].
  cbn [String.append]. simpl in Hp |- *.
  destruct (decide ("/"%char = c)) as [|Hne]; [reflexivity|].
  simpl in Hp |- *. now apply IH.
Qed.

(** X21. The copy of [getImageUrl] of the map screen serves every
    relative path from [BASE_URL/storage/], whatever the flag
    [isUserAvatar]: a path that starts with [storage/] is put after the
    base address as it is, every other path after [BASE_URL/storage/].
    For the latter the result is the one of the user-details copy
    without the flag. *)
Theorem map_getImageUrl_storage (BASE_URL : string) (imagePath : option string)
    (isUserAvatar : bool) :
  truthy imagePath = true ->
  test_http (or_else imagePath "") = false ->
  let cleaned := strip_leading_slashes (or_else imagePath "") in
  exists rest,
    MapList.getImageUrl BASE_URL imagePath isUserAvatar
    = Some (BASE_URL +:+ "/storage/" +:+ rest) /\
    (startsWith cleaned "storage/" = true -> cleaned = "storage/" +:+ rest) /\
    (startsWith cleaned "storage/" = false ->
     rest = cleaned /\
     MapList.getImageUrl BASE_URL imagePath isUserAvatar
     = UserDetails.getImageUrl imagePath BASE_URL false).
Proof.
  intros Ht Hh cleaned.
  destruct imagePath as [[|c s]|]; try discriminate Ht.
  cbn [or_else] in Hh, cleaned.
  assert (Hu : UserDetails.getImageUrl (Some (String c s)) BASE_URL false
               = Some (BASE_URL +:+ "/storage/" +:+ cleaned)).
  { rewrite UserDetails_getImageUrl_relative by (congruence || exact Hh).
    cbv zeta. fold cleaned. cbn [orb].
    destruct (startsWith cleaned "avatar/") eqn:Ea; [|reflexivity].
    now rewrite (startsWith_includes_slash cleaned "avatar/" eq_refl Ea). }
  unfold MapList.getImageUrl. rewrite Hh. cbv zeta. fold cleaned.
  destruct (startsWith cleaned "storage/") eqn:Es.
  - destruct (proj1 (startsWith_spec _ _) Es) as [rest Hrest].
    exists rest. rewrite Hrest.
    replace (startsWith ("storage/" +:+ rest) "garbage_post_images/")
      with false by reflexivity.
    split; [reflexivity|]. split; [reflexivity | discriminate].
  - exists cleaned. split.
    + now destruct (startsWith cleaned "garbage_post_images/"),
        (startsWith cleaned "avatar/").
    + split; [discriminate|]. intros _. split; [reflexivity|].
      rewrite Hu.
      now destruct (startsWith cleaned "garbage_post_images/"),
        (startsWith cleaned "avatar/").
Qed.

Lemma map_getImageUrl_storage_witness :
  exists rest,
    MapList.getImageUrl "http://h" (Some "/storage/a.png") true
    = Some ("http://h" +:+ "/storage/" +:+ rest) /\
    rest = "a.png".
Proof.
  destruct (map_getImageUrl_storage "http://h" (Some "/storage/a.png") true
              eq_refl eq_refl) as (rest & Hr & Hs & _).
  exists rest. split; [exact Hr|].
  specialize (Hs eq_refl). now injection Hs as <-.
Defined.

(** *** The name shown on the user-details screen *)

Lemma trim_end_space (s : string) : trim_end (s +:+ " ") = trim_end s.
Proof.
  induction s as [|c s IH]; [reflexivity|].
  cbn [String.append trim_end]. now rewrite IH.
Qed.

Lemma trim_start_space (s : string) :
  trim_start (s +:+ " ") = trim_start s +:+ " " \/
  (trim_start (s +:+ " ") = "" /\ trim_start s = "").
Proof.
  induction s as [|c s IH]; [now right|].
  cbn [String.append trim_start].
  destruct (is_white c); [exact IH | now left].
Qed.

Lemma trim_space_r (s : string) : trim (s +:+ " ") = trim s.
Proof.
  unfold trim. destruct (trim_start_space s) as [-> | [-> ->]];
    [apply trim_end_space | reflexivity].
Qed.

Lemma or_else_falsy (v : option string) (d : string) :
  truthy v = false -> or_else v d = d.
Proof. destruct v as [[|c s]|]; try discriminate; reflexivity. Qed.

(** X22. [getFullName] is the empty text without a profile. With only
    one of the two names it is that name trimmed, with no space left
    over from the missing one, so a first name of blanks gives the empty
    text. Only with neither name it falls back on [profile.name], and
    then on the translation of [anonymous]. *)
Theorem getFullName_spec (t : string -> string) (p : UserName.profile) :
  let first := UserName.first_name_of p in
  let last := UserName.last_name_of p in
  UserName.getFullName t None = "" /\
  (truthy first = true -> truthy last = false ->
   UserName.getFullName t (Some p) = trim (or_else first "")) /\
  (truthy first = false -> truthy last = true ->
   UserName.getFullName t (Some p) = trim (or_else last "")) /\
  (truthy first = false -> truthy last = false ->
   UserName.getFullName t (Some p)
   = or_else (UserName.name p) (t "anonymous")).
Proof.
  intros first last. split; [reflexivity|].
  unfold UserName.getFullName. cbv zeta. fold first last.
  split; [|split].
  - intros Hf Hl. rewrite (or_else_truthy first "" Hf), Hf. cbn [orb].
    rewrite (or_else_falsy last "" Hl). apply trim_space_r.
  - intros Hf Hl. rewrite (or_else_truthy last "" Hl), Hl.
    rewrite (or_else_falsy first "" Hf). reflexivity.
  - intros Hf Hl.
    now rewrite (or_else_falsy first "" Hf), (or_else_falsy last "" Hl).
Qed.

Lemma getFullName_spec_witness :
  UserName.getFullName (fun key => key)
    (Some {| UserName.detail :=
               Some {| UserName.first_name := Some " ";
                       UserName.last_name := None |};
             UserName.name := Some "Ann" |})
  = "".
Proof.
  destruct (getFullName_spec (fun key => key)
              {| UserName.detail :=
                   Some {| UserName.first_name := Some " ";
                           UserName.last_name := None |};
                 UserName.name := Some "Ann" |}) as (_ & H & _).
  rewrite (H eq_refl eq_refl). reflexivity.
Defined.
